(** * HMM kernel API of [sktime.markovprocess.bhmm.hidden.api]

    A shallow embedding of the Python wrappers [forward], [backward],
    [state_probabilities], [state_counts], [transition_counts], [viterbi]
    and [sample_path], together with the numpy operations they use.

    Conventions of the embedding:
    - a two-dimensional [ndarray] is a record of its column count and its
      rows. The entries are taken from an arithmetic [Arith F], which the
      whole development is generic in: [float64] is IEEE binary64 with its
      rounding, as the code computes, and [Q_exact] is the arithmetic of
      the rationals. What is proved for every arithmetic holds of the code;
    - a Python [int] is a [Z]; an optional argument is an [option];
    - an exception is a value [Raise e]; the module globals [_ones] and
      [_ones_size] are threaded through every operation as explicit state,
      and so is the content of a caller's output buffer where the module
      itself writes it;
    - a call into the compiled extension [_impl] is recorded as a
      [kernel_call] carrying the arguments handed over; the extension is
      not part of the sources at hand, and only its Viterbi kernel is given
      a definition, after the specification. *)

From Stdlib Require Import String.
From Stdlib Require Import List ZArith QArith Bool Lia.
From Stdlib Require Import PrimFloat FloatOps SpecFloat.
Import ListNotations.

(** ** Arithmetic *)

(** The operations on array entries that the module relies on. [fdot] is the
    inner product as [np.dot] accumulates it, [fleb] the comparison [<=]. *)
Class Arith (F : Type) : Type := {
  fzero : F;
  fone : F;
  fadd : F -> F -> F;
  fmul : F -> F -> F;
  fdiv : F -> F -> F;
  fleb : F -> F -> bool;
  fdot : list F -> list F -> F
}.

Fixpoint zip_with {X Y W : Type} (f : X -> Y -> W) (l : list X) (m : list Y) : list W :=
  match l, m with
  | x :: l', y :: m' => f x y :: zip_with f l' m'
  | _, _ => []
  end.

Definition sumQ (l : list Q) : Q := fold_left Qplus l 0%Q.

(** The rationals, without rounding. *)
#[export] Instance Q_exact : Arith Q := {|
  fzero := 0%Q;
  fone := 1%Q;
  fadd := Qplus;
  fmul := Qmult;
  fdiv := Qdiv;
  fleb := Qle_bool;
  fdot := fun u v => sumQ (zip_with Qmult u v)
|}.

(** IEEE binary64, the [float64] of numpy: every operation rounds to
    nearest, overflows to an infinity and gives nan on [0/0] and [inf/inf].
    The inner product adds the products from left to right; on vectors of
    up to two entries every order of accumulation gives this value. *)
#[export] Instance float64 : Arith float := {|
  fzero := 0%float;
  fone := 1%float;
  fadd := PrimFloat.add;
  fmul := PrimFloat.mul;
  fdiv := PrimFloat.div;
  fleb := PrimFloat.leb;
  fdot := fun u v => fold_left PrimFloat.add (zip_with PrimFloat.mul u v) 0%float
|}.


(** ** Arrays *)

Record ndarray (F : Type) : Type := mk_ndarray {
  ncols : nat;              (* shape[1] *)
  data : list (list F)      (* the rows; shape[0] is their number *)
}.
Arguments mk_ndarray {F} ncols data.
Arguments ncols {F} n.
Arguments data {F} n.

(** ** Exceptions *)

Inductive exn_class : Type := TypeError_class | ValueError_class.

(** The errors numpy raises from within, whose message texts are not
    modelled. *)
Inductive numpy_failure : Type :=
| operands_not_broadcastable   (* the operands have no common shape *)
| output_not_broadcastable     (* the output would have to be stretched *)
| shapes_not_aligned           (* np.dot on mismatching inner dimensions *)
| wrong_output_shape           (* the out of a reduction has another shape *)
| none_operand.                (* None where an array is needed *)

(** An exception raised with a message of its own, or from within numpy. *)
Inductive exn : Type :=
| TypeError (msg : string)
| ValueError (msg : string)
| NumpyError (c : exn_class) (k : numpy_failure).

Definition class_of (e : exn) : exn_class :=
  match e with
  | TypeError _ => TypeError_class
  | ValueError _ => ValueError_class
  | NumpyError c _ => c
  end.

Inductive outcome (X : Type) : Type :=
| Return (x : X)
| Raise (e : exn).
Arguments Return {X} x.
Arguments Raise {X} e.

(** ** State *)

(** The two module-level singletons. *)
Record globals (F : Type) : Type := mk_globals {
  _ones : option (ndarray F);
  _ones_size : Z
}.
Arguments mk_globals {F} _ones _ones_size.
Arguments _ones {F} g.
Arguments _ones_size {F} g.

(** [_ones = None], [_ones_size = 0] *)
Definition initial_globals {F : Type} : globals F :=
  {| _ones := None; _ones_size := 0 |}.

(** Computations on a state [S]: they read and write it and either return or
    raise. *)
Definition St (S X : Type) : Type := S -> outcome X * S.

Definition ret {S X} (x : X) : St S X := fun st => (Return x, st).
Definition raise {S X} (e : exn) : St S X := fun st => (Raise e, st).
Definition bind {S X Y} (m : St S X) (k : X -> St S Y) : St S Y :=
  fun st => match m st with
            | (Return x, st') => k x st'
            | (Raise e, st') => (Raise e, st')
            end.
Definition lift {S X} (o : outcome X) : St S X := fun st => (o, st).
Definition get_state {S} : St S S := fun st => (Return st, st).
Definition put_state {S} (st' : S) : St S unit := fun _ => (Return tt, st').

Notation "x <- m ;; k" := (bind m (fun x => k))
  (at level 61, m at next level, right associativity).
Notation "m ;;; k" := (bind m (fun _ => k))
  (at level 61, right associativity).

(** Computations of the module on its globals. *)
Definition M (F X : Type) : Type := St (globals F) X.

(** Computations that also hold the content of the caller's output buffer,
    [None] when no buffer is passed: the array object is the caller's, so
    what is written into it is there after the call, also when the call
    raises. *)
Definition InPlace (F B X : Type) : Type := St (globals F * option B) X.

Definition on_globals {F B X} (m : M F X) : InPlace F B X :=
  fun w => let (o, st') := m (fst w) in (o, (st', snd w)).
Definition read_buffer {F B} : InPlace F B (option B) :=
  fun w => (Return (snd w), w).
(** A write into the buffer, when there is one. *)
Definition write_buffer {F B} (b : B) : InPlace F B unit :=
  fun w => (Return tt, (fst w, match snd w with
                               | Some _ => Some b
                               | None => None
                               end)).

Section Operations.

Context {F : Type} {ar : Arith F}.

Definition nrows (a : ndarray F) : nat := length (data a).
Definition shape0 (a : ndarray F) : Z := Z.of_nat (nrows a).
Definition shape1 (a : ndarray F) : Z := Z.of_nat (ncols a).

(** Every row has [ncols] entries. *)
Definition well_shaped (a : ndarray F) : Prop :=
  Forall (fun r => length r = ncols a) (data a).

(** [a[i, j]], reading zero outside the array. *)
Definition entry (a : ndarray F) (i j : nat) : F := nth j (nth i (data a) []) fzero.

(** ** The numpy operations used by the module *)

Definition np_zeros_like (a : ndarray F) : ndarray F :=
  {| ncols := ncols a; data := repeat (repeat fzero (ncols a)) (nrows a) |}.

(** [np.ones(n)[:, None]]: a column of [n] ones. *)
Definition np_ones_column (n : nat) : ndarray F :=
  {| ncols := 1; data := repeat [fone] n |}.

(** [np.zeros(T, dtype=np.int32)]; a negative length is refused. *)
Definition np_zeros_int (T : Z) : outcome (list nat) :=
  if (T <? 0)%Z then Raise (ValueError "negative dimensions are not allowed")
  else Return (repeat 0%nat (Z.to_nat T)).

(** The stop index of the slice [a[:T]] on [n] rows (a negative [T] counts
    from the end). *)
Definition slice_stop (T : Z) (n : nat) : nat :=
  if (T <? 0)%Z then Z.to_nat (T + Z.of_nat n) else Z.to_nat T.

(** [a[:T]] and [a[0:T]] *)
Definition take_rows (T : Z) (a : ndarray F) : ndarray F :=
  {| ncols := ncols a; data := firstn (slice_stop T (nrows a)) (data a) |}.

(** Broadcasting of one dimension of two operands. *)
Definition broadcast_dim (a b : nat) : option nat :=
  if (a =? b)%nat then Some a
  else if (a =? 1)%nat then Some b
  else if (b =? 1)%nat then Some a
  else None.

(** A dimension of size [n] or 1 stretched to [n]. *)
Definition stretch {X : Type} (n : nat) (l : list X) : list X :=
  if (length l =? n)%nat then l
  else match l with
       | [x] => repeat x n
       | _ => l
       end.

Definition broadcast_to (r c : nat) (a : ndarray F) : ndarray F :=
  {| ncols := c; data := stretch r (map (stretch c) (data a)) |}.

(** A binary ufunc without [out]. *)
Definition ufunc2 (f : F -> F -> F) (x y : ndarray F) : outcome (ndarray F) :=
  match broadcast_dim (nrows x) (nrows y), broadcast_dim (ncols x) (ncols y) with
  | Some r, Some c =>
      Return {| ncols := c;
                data := zip_with (zip_with f) (data (broadcast_to r c x))
                                              (data (broadcast_to r c y)) |}
  | _, _ => Raise (NumpyError ValueError_class operands_not_broadcastable)
  end.

(** The result of a ufunc fits [out] when each of its dimensions is the one
    of [out] or 1. *)
Definition fits (a o : nat) : bool := (a =? o)%nat || (a =? 1)%nat.

(** A dimension of the result and the one of [out] have no common shape:
    they differ and neither is 1. *)
Definition clashes (a o : nat) : bool :=
  negb (a =? o)%nat && negb (a =? 1)%nat && negb (o =? 1)%nat.

(** What a binary ufunc called with [out] leaves in [out]: the shapes are
    checked before anything is written. When the operands and [out] have no
    common shape the operands are refused; when [out] would have to be
    stretched, [out] is. *)
Definition ufunc2_out (f : F -> F -> F) (x y out : ndarray F) : outcome (ndarray F) :=
  match ufunc2 f x y with
  | Return z =>
      if fits (nrows z) (nrows out) && fits (ncols z) (ncols out)
      then Return (broadcast_to (nrows out) (ncols out) z)
      else if clashes (nrows z) (nrows out) || clashes (ncols z) (ncols out)
      then Raise (NumpyError ValueError_class operands_not_broadcastable)
      else Raise (NumpyError ValueError_class output_not_broadcastable)
  | Raise e => Raise e
  end.

Definition np_multiply := ufunc2 fmul.
Definition np_multiply_out := ufunc2_out fmul.
Definition np_divide_out := ufunc2_out fdiv.

Definition column (c : nat) (b : ndarray F) : list F :=
  map (fun r => nth c r fzero) (data b).

(** [np.dot] of two matrices. *)
Definition np_dot (g b : ndarray F) : outcome (ndarray F) :=
  if (ncols g =? nrows b)%nat
  then Return {| ncols := ncols b;
                 data := map (fun r => map (fun c => fdot r (column c b))
                                           (seq 0 (ncols b)))
                             (data g) |}
  else Raise (NumpyError ValueError_class shapes_not_aligned).

(** [np.sum(a, axis=0, out=out)]: the rows are added up one after the
    other, starting from zeros (which leaves a binary64 sum as it is, but
    for the sign of a zero). The shape of [out] is checked first. *)
Definition np_sum_axis0 (a : ndarray F) (out : option (list F)) : outcome (list F) :=
  let s := fold_left (zip_with fadd) (data a) (repeat fzero (ncols a)) in
  match out with
  | None => Return s
  | Some o =>
      if (length o =? ncols a)%nat then Return s
      else Raise (NumpyError ValueError_class wrong_output_shape)
  end.

(** [T > n] for an argument [T] that may be [None]: the interpreter refuses
    to order [None] and an [int]. *)
Definition py_gt (T : option Z) (n : Z) : outcome bool :=
  match T with
  | None => Raise (TypeError "'>' not supported between instances of 'NoneType' and 'int'")
  | Some t => Return (t >? n)%Z
  end.

End Operations.

(** ** The compiled kernel [_impl]

    The wrappers end in a call of the extension module; the arguments they
    hand over are what the model records. *)

Inductive kernel_call (F : Type) : Type :=
| impl_forward (A pobs : ndarray F) (pi : list F) (alpha : ndarray F)
               (T : option Z) (N : Z)
| impl_backward (A pobs : ndarray F) (T N : Z) (beta : ndarray F)
| impl_transition_counts (alpha beta A pobs : ndarray F) (T N : Z) (C : ndarray F)
| impl_sample_path (alpha A pobs : ndarray F) (path : list nat) (T N : Z).
Arguments impl_forward {F} A pobs pi alpha T N.
Arguments impl_backward {F} A pobs T N beta.
Arguments impl_transition_counts {F} alpha beta A pobs T N C.
Arguments impl_sample_path {F} alpha A pobs path T N.

Section Kernel.

Context {F : Type} {ar : Arith F}.

(** *** The Viterbi kernel *)

(** Modelled from the spec: the argmax of the missing kernel
    [_impl.viterbi], ties going to the lowest index (section 4.5). The
    scan keeps the index [best] of the largest entry [bestv] seen so far;
    [l] starts at index [i]. *)
Fixpoint argmax_from (l : list F) (i best : nat) (bestv : F) : nat :=
  match l with
  | [] => best
  | x :: l' =>
      if fleb x bestv then argmax_from l' (S i) best bestv
      else argmax_from l' (S i) i x
  end.

(** Modelled from the spec: the lowest index of a largest entry, as used by
    the missing kernel [_impl.viterbi]. *)
Definition argmax (l : list F) : nat :=
  match l with
  | [] => 0%nat
  | x :: l' => argmax_from l' 1 0 x
  end.

(** Modelled from the spec: the initialisation of the missing kernel
    [_impl.viterbi], [pi[i] * pobs[0, i]] for each state [i]. *)
Definition viterbi_init (pi b : list F) (N : nat) : list F :=
  map (fun i => fmul (nth i pi fzero) (nth i b fzero)) (seq 0 N).

(** Modelled from the spec: in the missing kernel [_impl.viterbi], the
    products [delta[i] * A[i, j]] over the predecessors [i] of [j]. *)
Definition viterbi_scores (A : ndarray F) (N : nat) (delta : list F) (j : nat) : list F :=
  map (fun i => fmul (nth i delta fzero) (entry A i j)) (seq 0 N).

(** Modelled from the spec: one step of the recursion of the missing kernel
    [_impl.viterbi] on the observation row [b], giving the new best
    probabilities and the back pointers. *)
Definition viterbi_step (A : ndarray F) (N : nat) (delta b : list F) : list F * list nat :=
  (map (fun j => let h := viterbi_scores A N delta j in
                 fmul (nth (argmax h) h fzero) (nth j b fzero)) (seq 0 N),
   map (fun j => argmax (viterbi_scores A N delta j)) (seq 0 N)).

(** Modelled from the spec: the recursion of the missing kernel
    [_impl.viterbi] over the remaining observation rows; the tables of back
    pointers are collected latest first. *)
Fixpoint viterbi_forward (A : ndarray F) (N : nat) (delta : list F)
    (ptrs : list (list nat)) (obs : list (list F)) : list F * list (list nat) :=
  match obs with
  | [] => (delta, ptrs)
  | b :: obs' =>
      let (delta', ptr) := viterbi_step A N delta b in
      viterbi_forward A N delta' (ptr :: ptrs) obs'
  end.

(** Modelled from the spec: the back tracking of the missing kernel
    [_impl.viterbi] from state [s], giving the path from its last state to
    its first. *)
Fixpoint backtrack (ptrs : list (list nat)) (s : nat) : list nat :=
  match ptrs with
  | [] => [s]
  | ptr :: ptrs' => s :: backtrack ptrs' (nth s ptr 0%nat)
  end.

(** Modelled from the spec: the kernel [_impl.viterbi] of the compiled
    extension is missing from the sources. Section 4.5 of the specification
    describes it: for each time and state the probability of the best path
    ending in that state and a back pointer to the preceding state;
    initialised from [pi * pobs[0, :]]; the recursion takes the maximum over
    the predecessor states, ties going to the lowest index; the path is read
    back from the argmax at [T - 1]. It fills the buffer [path] and returns
    it; on no rows the buffer is returned as it came. The probabilities are
    kept as they are, without logarithms or rescaling. *)
Definition hidden_viterbi (A pobs : ndarray F) (pi : list F) (path : list nat)
    (T N : Z) : list nat :=
  match firstn (Z.to_nat T) (data pobs) with
  | [] => path
  | b0 :: obs =>
      let (delta, ptrs) :=
        viterbi_forward A (Z.to_nat N) (viterbi_init pi b0 (Z.to_nat N)) [] obs in
      rev (backtrack ptrs (argmax delta))
  end.

(** The joint probability of a sequence of states [q] and the
    observations, [pi[q0] * pobs[0, q0] * prod_t A[q(t-1), q(t)] * pobs[t, q(t)]],
    multiplied from left to right: [acc] is the product so far and [prev]
    the state before [q]. *)
Fixpoint path_prob_from (A : ndarray F) (acc : F) (prev : nat)
    (obs : list (list F)) (q : list nat) : F :=
  match obs, q with
  | b :: obs', s :: q' =>
      path_prob_from A (fmul acc (fmul (entry A prev s) (nth s b fzero))) s obs' q'
  | _, _ => acc
  end.

(** The joint probability of the states [q] and the observation rows
    [rows]; 1 when there is no row or no state. *)
Definition path_prob_rows (A : ndarray F) (pi : list F) (rows : list (list F))
    (q : list nat) : F :=
  match rows, q with
  | b :: obs, s :: q' =>
      path_prob_from A (fmul (nth s pi fzero) (nth s b fzero)) s obs q'
  | _, _ => fone
  end.

(** The joint probability of the states [q] and the rows of [pobs]. *)
Definition path_prob (A pobs : ndarray F) (pi : list F) (q : list nat) : F :=
  path_prob_rows A pi (data pobs) q.

End Kernel.

(** ** The operations of the module *)

Section Api.

Context {F : Type} {ar : Arith F}.

Definition get_globals : M F (globals F) := get_state.
Definition put_globals (st : globals F) : M F unit := put_state st.

Definition forward (A pobs : ndarray F) (pi : list F) (T : option Z)
    (alpha : option (ndarray F)) : M F (kernel_call F) :=
  match T with
  | None => ret tt        (* T_ = pobs.shape[0]: the name T_ is not read again *)
  | Some t =>
      if (t >? shape0 pobs)%Z
      then raise (TypeError "T must be at most the length of pobs.")
      else ret tt
  end ;;;
  let N := shape0 A in
  alpha' <- match alpha with
            | None => ret (np_zeros_like pobs)
            | Some a =>
                gt <- lift (py_gt T (shape0 a)) ;;
                if gt : bool
                then raise (TypeError "alpha must at least have length T in order to fit trajectory.")
                else ret a
            end ;;
  ret (impl_forward A pobs pi alpha' T N).

Definition backward (A pobs : ndarray F) (T : option Z)
    (beta_out : option (ndarray F)) : M F (kernel_call F) :=
  T' <- match T with
        | None => ret (shape0 pobs)
        | Some t =>
            if (t >? shape0 pobs)%Z
            then raise (ValueError "T must be at most the length of pobs.")
            else ret t
        end ;;
  let N := shape0 A in
  beta <- match beta_out with
          | None => ret (np_zeros_like pobs)
          | Some b =>
              if (T' >? shape0 b)%Z
              then raise (ValueError "beta_out must at least have length T in order to fit trajectory.")
              else ret b
          end ;;
  ret (impl_backward A pobs T' N beta).

(** The summation helper of [state_probabilities]: the cached column of ones
    is rebuilt when its recorded size is not the column count of [alpha]. *)
Definition get_summation_helper (alpha : ndarray F) : M F unit :=
  st <- get_globals ;;
  if negb (_ones_size st =? shape1 alpha)%Z
  then put_globals {| _ones := Some (np_ones_column (ncols alpha));
                      _ones_size := shape1 alpha |}
  else ret tt.

(** The trajectory length [state_probabilities] settles on. *)
Definition determine_T (alpha : ndarray F) (T : option Z)
    (gamma_out : option (ndarray F)) : Z :=
  match T with
  | Some t => t
  | None => match gamma_out with
            | None => shape0 alpha
            | Some g => shape0 g
            end
  end.

(** The "compute" block of [state_probabilities]: the product of [alpha] and
    [beta], cut to [T] rows when freshly allocated, and otherwise what
    [np.multiply] leaves in the buffer. *)
Definition product_step (alpha beta : ndarray F) (T : option Z)
    (gamma_out : option (ndarray F)) : outcome (ndarray F) :=
  let T' := determine_T alpha T gamma_out in
  match gamma_out with
  | None =>
      match np_multiply alpha beta with
      | Return g => Return (if (T' <? shape0 g)%Z then take_rows T' g else g)
      | Raise e => Raise e
      end
  | Some g =>
      if (shape0 g <? shape0 alpha)%Z
      then np_multiply_out (take_rows T' alpha) (take_rows T' beta) g
      else np_multiply_out alpha beta g
  end.

(** [state_probabilities] on the globals and the caller's buffer
    [gamma_out]: [np.multiply] and [np.divide] write the buffer in place,
    each once its shapes have been accepted. *)
Definition state_probabilities_in_place (alpha beta : ndarray F) (T : option Z)
    : InPlace F (ndarray F) (ndarray F) :=
  on_globals (get_summation_helper alpha) ;;;
  (if negb (shape0 alpha =? shape0 beta)%Z
   then raise (ValueError "Inconsistent sizes of alpha and beta.")
   else ret tt) ;;;
  (* determine T to use; compute *)
  gamma_out <- read_buffer ;;
  gamma <- lift (product_step alpha beta T gamma_out) ;;
  write_buffer gamma ;;;
  (* normalize: np.dot on a helper that is still None is refused *)
  st <- on_globals get_globals ;;
  match _ones st with
  | None => raise (NumpyError TypeError_class none_operand)
  | Some ones =>
      d <- lift (np_dot gamma ones) ;;
      gamma' <- lift (np_divide_out gamma d gamma) ;;
      write_buffer gamma' ;;;
      ret gamma'
  end.

(** [state_probabilities] called with the buffer [gamma_out]: its outcome
    and the globals it leaves. *)
Definition state_probabilities (alpha beta : ndarray F) (T : option Z)
    (gamma_out : option (ndarray F)) : M F (ndarray F) :=
  fun st =>
    let (o, w) := state_probabilities_in_place alpha beta T (st, gamma_out) in
    (o, fst w).

(** [state_counts] on the globals and the caller's vector [out]. *)
Definition state_counts_in_place (gamma : ndarray F) (T : Z)
    : InPlace F (list F) (list F) :=
  out <- read_buffer ;;
  s <- lift (np_sum_axis0 (take_rows T gamma) out) ;;
  write_buffer s ;;;
  ret s.

Definition state_counts (gamma : ndarray F) (T : Z) (out : option (list F))
    : M F (list F) :=
  fun st =>
    let (o, w) := state_counts_in_place gamma T (st, out) in
    (o, fst w).

Definition transition_counts (alpha beta A pobs : ndarray F) (T : option Z)
    (out : option (ndarray F)) : M F (kernel_call F) :=
  T' <- match T with
        | None => ret (shape0 pobs)
        | Some t =>
            if (t >? shape0 pobs)%Z
            then raise (ValueError "T must be at most the length of pobs.")
            else ret t
        end ;;
  let N := shape0 A in
  let C := match out with
           | None => np_zeros_like A
           | Some o => o
           end in
  ret (impl_transition_counts alpha beta A pobs T' N C).

Definition viterbi (A pobs : ndarray F) (pi : list F) : M F (list nat) :=
  (* prepare path array *)
  let T := shape0 pobs in
  let N := shape0 A in
  path <- lift (np_zeros_int T) ;;
  ret (hidden_viterbi A pobs pi path T N).

Definition sample_path (alpha A pobs : ndarray F) (T : option Z)
    : M F (kernel_call F) :=
  let N := shape1 pobs in
  T' <- match T with
        | None => ret (shape0 pobs)
        | Some t =>
            if (t >? shape0 pobs)%Z || (t >? shape0 alpha)%Z
            then raise (ValueError "T must be at most the length of pobs and alpha.")
            else ret t
        end ;;
  path <- lift (np_zeros_int T') ;;
  ret (impl_sample_path alpha A pobs path T' N).

End Api.

(** *** Calls of the module as data *)

Inductive api_call (F : Type) : Type :=
| call_forward (A pobs : ndarray F) (pi : list F) (T : option Z)
               (alpha : option (ndarray F))
| call_backward (A pobs : ndarray F) (T : option Z) (beta_out : option (ndarray F))
| call_state_probabilities (alpha beta : ndarray F) (T : option Z)
                           (gamma_out : option (ndarray F))
| call_state_counts (gamma : ndarray F) (T : Z) (out : option (list F))
| call_transition_counts (alpha beta A pobs : ndarray F) (T : option Z)
                         (out : option (ndarray F))
| call_viterbi (A pobs : ndarray F) (pi : list F)
| call_sample_path (alpha A pobs : ndarray F) (T : option Z).
Arguments call_forward {F} A pobs pi T alpha.
Arguments call_backward {F} A pobs T beta_out.
Arguments call_state_probabilities {F} alpha beta T gamma_out.
Arguments call_state_counts {F} gamma T out.
Arguments call_transition_counts {F} alpha beta A pobs T out.
Arguments call_viterbi {F} A pobs pi.
Arguments call_sample_path {F} alpha A pobs T.

Inductive api_result (F : Type) : Type :=
| Delegated (k : kernel_call F)
| Matrix (a : ndarray F)
| Vector (v : list F)
| Path (p : list nat).
Arguments Delegated {F} k.
Arguments Matrix {F} a.
Arguments Vector {F} v.
Arguments Path {F} p.

(** An array a caller passes as output buffer. *)
Inductive buffer (F : Type) : Type :=
| Matrix_buffer (a : ndarray F)
| Vector_buffer (v : list F).
Arguments Matrix_buffer {F} a.
Arguments Vector_buffer {F} v.

Section Calls.

Context {F : Type} {ar : Arith F}.

Definition run (c : api_call F) : M F (api_result F) :=
  match c with
  | call_forward A pobs pi T alpha => k <- forward A pobs pi T alpha ;; ret (Delegated k)
  | call_backward A pobs T b => k <- backward A pobs T b ;; ret (Delegated k)
  | call_state_probabilities a b T g => r <- state_probabilities a b T g ;; ret (Matrix r)
  | call_state_counts g T out => v <- state_counts g T out ;; ret (Vector v)
  | call_transition_counts a b A pobs T out =>
      k <- transition_counts a b A pobs T out ;; ret (Delegated k)
  | call_viterbi A pobs pi => p <- viterbi A pobs pi ;; ret (Path p)
  | call_sample_path a A pobs T => k <- sample_path a A pobs T ;; ret (Delegated k)
  end.

(** The output buffer of a call, as the caller passes it. *)
Definition out_buffer (c : api_call F) : option (buffer F) :=
  match c with
  | call_forward _ _ _ _ alpha => option_map Matrix_buffer alpha
  | call_backward _ _ _ beta_out => option_map Matrix_buffer beta_out
  | call_state_probabilities _ _ _ gamma_out => option_map Matrix_buffer gamma_out
  | call_state_counts _ _ out => option_map Vector_buffer out
  | call_transition_counts _ _ _ _ _ out => option_map Matrix_buffer out
  | call_viterbi _ _ _ => None
  | call_sample_path _ _ _ _ => None
  end.

(** What the module itself has left in the output buffer of a call when the
    call is over: [state_probabilities] and [state_counts] write it; the
    other operations hand it to the kernel and do not write it themselves. *)
Definition buffer_after (c : api_call F) (st : globals F) : option (buffer F) :=
  match c with
  | call_state_probabilities a b T g =>
      option_map Matrix_buffer
        (snd (snd (state_probabilities_in_place a b T (st, g))))
  | call_state_counts g T out =>
      option_map Vector_buffer (snd (snd (state_counts_in_place g T (st, out))))
  | _ => out_buffer c
  end.

(** The states of the globals that calls of the module can produce. *)
Inductive reachable : globals F -> Prop :=
| reachable_initial : reachable initial_globals
| reachable_run c st : reachable st -> reachable (snd (run c st)).

(** ** Notions used in the statements *)

(** The cache of ones agrees with its recorded size, or was never built. *)
Definition cache_consistent (st : globals F) : Prop :=
  match _ones st with
  | None => _ones_size st = 0%Z
  | Some o => exists n, o = np_ones_column n /\ _ones_size st = Z.of_nat n
  end.




(** The rows that [np.multiply] computes for the buffer [g] before they are
    written: those of [alpha], or of [alpha[:T]] when the buffer is
    shorter than [alpha]. *)
Definition rows_written (alpha : ndarray F) (T : option Z) (g : ndarray F) : nat :=
  if (shape0 g <? shape0 alpha)%Z
  then nrows (take_rows (determine_T alpha T (Some g)) alpha)
  else nrows alpha.

(** The shapes of a model of [N] hidden states with its observation
    probabilities: [A] is [N x N], [pobs] has [N] columns, [pi] has [N]
    entries. *)
Definition hmm_shaped (A pobs : ndarray F) (pi : list F) : Prop :=
  well_shaped A /\ ncols A = nrows A
  /\ well_shaped pobs /\ ncols pobs = nrows A
  /\ length pi = nrows A.

End Calls.

(** ** Notions of exact arithmetic *)

Definition nonneg_row (r : list Q) : Prop := Forall (fun x => (0 <= x)%Q) r.
Definition nonneg (a : ndarray Q) : Prop := Forall nonneg_row (data a).

(** The paths read back from the tables of back pointers: after the rows
    [done], the path ending in state [j] is made of states, ends in [j],
    and has the probability kept for [j]. *)
Definition survivors_ok (A : ndarray Q) (N : nat) (pi : list Q)
    (done : list (list Q)) (delta : list Q) (ptrs : list (list nat)) : Prop :=
  forall j, (j < N)%nat ->
    let p := rev (backtrack ptrs j) in
    length p = length done
    /\ Forall (fun s => (s < N)%nat) p
    /\ last p 0%nat = j
    /\ (path_prob_rows A pi done p == nth j delta 0)%Q.

(** ** Small arrays for concrete calls *)

Definition ones_1x2 : ndarray Q := mk_ndarray 2 [[1; 1]]%Q.
Definition ones_2x1 : ndarray Q := mk_ndarray 1 [[1]; [1]]%Q.
Definition ones_2x2 : ndarray Q := mk_ndarray 2 [[1; 1]; [1; 1]]%Q.
Definition ones_2x3 : ndarray Q := mk_ndarray 3 [[1; 1; 1]; [1; 1; 1]]%Q.
Definition empty_1x0 : ndarray Q := mk_ndarray 0 [[]].
Definition sticky_A : ndarray Q :=
  mk_ndarray 2 [[9 # 10; 1 # 10]; [1 # 10; 9 # 10]]%Q.
Definition noisy_pobs : ndarray Q :=
  mk_ndarray 2 [[1 # 2; 1 # 2]; [1 # 10; 9 # 10]; [8 # 10; 2 # 10]]%Q.
Definition uniform_pi : list Q := [1 # 2; 1 # 2]%Q.
Definition alpha_3x2 : ndarray Q := mk_ndarray 2 [[1; 1]; [1; 3]; [1; 1]]%Q.
Definition ones_3x2 : ndarray Q := mk_ndarray 2 [[1; 1]; [1; 1]; [1; 1]]%Q.
Definition twos_2x1 : ndarray Q := mk_ndarray 1 [[2]; [2]]%Q.



(** * Properties *)

(** ** The globals after a call *)

Section Globals.

Context {F : Type} {ar : Arith F}.

Lemma forward_globals A pobs (pi : list F) T alpha st :
  snd (forward A pobs pi T alpha st) = st.
Proof.
  unfold forward, bind, ret, raise, lift.
  destruct T as [t|]; simpl.
  - destruct (t >? shape0 pobs)%Z; simpl; [reflexivity|].
    destruct alpha as [a|]; simpl; [|reflexivity].
    destruct (t >? shape0 a)%Z; reflexivity.
  - destruct alpha as [a|]; reflexivity.
Qed.

Lemma backward_globals (A pobs : ndarray F) T beta_out st :
  snd (backward A pobs T beta_out st) = st.
Proof.
  unfold backward, bind, ret, raise.
  destruct T as [t|]; simpl.
  - destruct (t >? shape0 pobs)%Z; simpl; [reflexivity|].
    destruct beta_out as [b|]; simpl; [|reflexivity].
    destruct (t >? shape0 b)%Z; reflexivity.
  - destruct beta_out as [b|]; simpl; [|reflexivity].
    destruct (shape0 pobs >? shape0 b)%Z; reflexivity.
Qed.

Lemma transition_counts_globals (alpha beta A pobs : ndarray F) T out st :
  snd (transition_counts alpha beta A pobs T out st) = st.
Proof.
  unfold transition_counts, bind, ret, raise.
  destruct T as [t|]; simpl; [|reflexivity].
  destruct (t >? shape0 pobs)%Z; reflexivity.
Qed.

Lemma sample_path_globals (alpha A pobs : ndarray F) T st :
  snd (sample_path alpha A pobs T st) = st.
Proof.
  unfold sample_path, bind, ret, raise, lift, np_zeros_int.
  destruct T as [t|]; simpl.
  - destruct ((t >? shape0 pobs)%Z || (t >? shape0 alpha)%Z); simpl; [reflexivity|].
    destruct (t <? 0)%Z; reflexivity.
  - destruct (shape0 pobs <? 0)%Z; reflexivity.
Qed.

Lemma viterbi_globals (A pobs : ndarray F) pi st : snd (viterbi A pobs pi st) = st.
Proof.
  unfold viterbi, bind, ret, lift, np_zeros_int.
  destruct (shape0 pobs <? 0)%Z; reflexivity.
Qed.

(** [state_counts] in place, case by case: the vector is written into [out]
    only when the call returns. *)
Lemma state_counts_in_place_cases (gamma : ndarray F) T st out :
  state_counts_in_place gamma T (st, out)
  = match np_sum_axis0 (take_rows T gamma) out with
    | Return s => (Return s, (st, match out with
                                  | Some _ => Some s
                                  | None => None
                                  end))
    | Raise e => (Raise e, (st, out))
    end.
Proof.
  unfold state_counts_in_place, bind, ret, lift, read_buffer, write_buffer.
  cbn [fst snd].
  destruct (np_sum_axis0 (take_rows T gamma) out); reflexivity.
Qed.

Lemma state_counts_cases (gamma : ndarray F) T out st :
  state_counts gamma T out st = (np_sum_axis0 (take_rows T gamma) out, st).
Proof.
  unfold state_counts. rewrite state_counts_in_place_cases.
  destruct (np_sum_axis0 (take_rows T gamma) out); reflexivity.
Qed.

Lemma state_counts_globals (gamma : ndarray F) T out st :
  snd (state_counts gamma T out st) = st.
Proof. rewrite state_counts_cases. reflexivity. Qed.

Lemma get_summation_helper_returns (alpha : ndarray F) st :
  get_summation_helper alpha st = (Return tt, snd (get_summation_helper alpha st)).
Proof.
  unfold get_summation_helper, bind, get_globals, put_globals, get_state, put_state, ret.
  destruct (negb (_ones_size st =? shape1 alpha)%Z); reflexivity.
Qed.

Lemma get_summation_helper_globals (alpha : ndarray F) st :
  snd (get_summation_helper alpha st)
  = if (_ones_size st =? shape1 alpha)%Z then st
    else {| _ones := Some (np_ones_column (ncols alpha)); _ones_size := shape1 alpha |}.
Proof.
  unfold get_summation_helper, bind, get_globals, put_globals, get_state, put_state, ret.
  destruct (_ones_size st =? shape1 alpha)%Z; reflexivity.
Qed.

(** [state_probabilities] in place, case by case: what it returns or raises,
    the globals and the content of the buffer it leaves. *)
Lemma state_probabilities_in_place_cases (alpha beta : ndarray F) T st gamma_out :
  let st1 := snd (get_summation_helper alpha st) in
  let written x := match gamma_out with
                   | Some _ => Some x
                   | None => None
                   end in
  state_probabilities_in_place alpha beta T (st, gamma_out)
  = if negb (shape0 alpha =? shape0 beta)%Z
    then (Raise (ValueError "Inconsistent sizes of alpha and beta."), (st1, gamma_out))
    else match product_step alpha beta T gamma_out with
         | Raise e => (Raise e, (st1, gamma_out))
         | Return m =>
             match _ones st1 with
             | None => (Raise (NumpyError TypeError_class none_operand),
                        (st1, written m))
             | Some ones =>
                 match np_dot m ones with
                 | Raise e => (Raise e, (st1, written m))
                 | Return d =>
                     match np_divide_out m d m with
                     | Raise e => (Raise e, (st1, written m))
                     | Return gamma => (Return gamma, (st1, written gamma))
                     end
                 end
             end
         end.
Proof.
  intros st1 written.
  unfold state_probabilities_in_place, bind at 1.
  unfold on_globals at 1. cbn [fst snd].
  rewrite get_summation_helper_returns. fold st1.
  unfold bind at 1.
  destruct (negb (shape0 alpha =? shape0 beta)%Z); [reflexivity|].
  unfold ret at 1.
  unfold bind at 1, read_buffer at 1. cbn [fst snd].
  unfold bind at 1, lift at 1.
  destruct (product_step alpha beta T gamma_out) as [m|e]; [|reflexivity].
  unfold bind at 1, write_buffer at 1. cbn [fst snd]. fold (written m).
  unfold bind at 1, on_globals at 1, get_globals, get_state. cbn [fst snd].
  destruct (_ones st1) as [ones|]; [|reflexivity].
  unfold bind at 1, lift at 1.
  destruct (np_dot m ones) as [d|e]; [|reflexivity].
  unfold bind at 1, lift at 1.
  destruct (np_divide_out m d m) as [gamma|e]; [|reflexivity].
  unfold bind, write_buffer, ret. cbn [fst snd].
  unfold written. destruct gamma_out; reflexivity.
Qed.

(** The outcome of [state_probabilities], step by step. *)
Lemma state_probabilities_outcome (alpha beta : ndarray F) T gamma_out st :
  fst (state_probabilities alpha beta T gamma_out st)
  = if negb (shape0 alpha =? shape0 beta)%Z
    then Raise (ValueError "Inconsistent sizes of alpha and beta.")
    else match product_step alpha beta T gamma_out with
         | Raise e => Raise e
         | Return m =>
             match _ones (snd (get_summation_helper alpha st)) with
             | None => Raise (NumpyError TypeError_class none_operand)
             | Some ones =>
                 match np_dot m ones with
                 | Raise e => Raise e
                 | Return d => np_divide_out m d m
                 end
             end
         end.
Proof.
  unfold state_probabilities.
  rewrite state_probabilities_in_place_cases. cbv zeta.
  destruct (negb (shape0 alpha =? shape0 beta)%Z); [reflexivity|].
  destruct (product_step alpha beta T gamma_out) as [m|e]; [|reflexivity].
  destruct (_ones (snd (get_summation_helper alpha st))) as [ones|]; [|reflexivity].
  destruct (np_dot m ones) as [d|e]; [|reflexivity].
  destruct (np_divide_out m d m); reflexivity.
Qed.

(** Whatever its outcome, [state_probabilities] leaves the globals as its
    summation helper set them. *)
Lemma state_probabilities_globals (alpha beta : ndarray F) T gamma_out st :
  snd (state_probabilities alpha beta T gamma_out st)
  = snd (get_summation_helper alpha st).
Proof.
  unfold state_probabilities.
  rewrite state_probabilities_in_place_cases. cbv zeta.
  destruct (negb (shape0 alpha =? shape0 beta)%Z); [reflexivity|].
  destruct (product_step alpha beta T gamma_out) as [m|e]; [|reflexivity].
  destruct (_ones (snd (get_summation_helper alpha st))) as [ones|]; [|reflexivity].
  destruct (np_dot m ones) as [d|e]; [|reflexivity].
  destruct (np_divide_out m d m); reflexivity.
Qed.

(** The globals after any call of the module. *)
Lemma run_globals (c : api_call F) st :
  snd (run c st)
  = match c with
    | call_state_probabilities alpha _ _ _ => snd (get_summation_helper alpha st)
    | _ => st
    end.
Proof.
  destruct c; unfold run, bind at 1.
  - pose proof (forward_globals A pobs pi T alpha st) as H.
    destruct (forward A pobs pi T alpha st) as [[k|e] st1]; exact H.
  - pose proof (backward_globals A pobs T beta_out st) as H.
    destruct (backward A pobs T beta_out st) as [[k|e] st1]; exact H.
  - pose proof (state_probabilities_globals alpha beta T gamma_out st) as H.
    destruct (state_probabilities alpha beta T gamma_out st) as [[k|e] st1]; exact H.
  - pose proof (state_counts_globals gamma T out st) as H.
    destruct (state_counts gamma T out st) as [[k|e] st1]; exact H.
  - pose proof (transition_counts_globals alpha beta A pobs T out st) as H.
    destruct (transition_counts alpha beta A pobs T out st) as [[k|e] st1]; exact H.
  - pose proof (viterbi_globals A pobs pi st) as H.
    destruct (viterbi A pobs pi st) as [[k|e] st1]; exact H.
  - pose proof (sample_path_globals alpha A pobs T st) as H.
    destruct (sample_path alpha A pobs T st) as [[k|e] st1]; exact H.
Qed.

Lemma Z_gtb_irrefl n : (n >? n)%Z = false.
Proof. rewrite Z.gtb_ltb. apply Z.ltb_irrefl. Qed.

(** ** The trajectory length handed to the forward kernel *)

(** C1 (the code departs from the claim): when [T] is omitted and no buffer
    is passed, [forward] hands [None] to the kernel as trajectory length,
    where the call with [T = pobs.shape[0]] hands that row count; the two
    calls of the kernel differ for every input. *)
Theorem forward_omitted_T_reaches_kernel_as_None :
  forall A pobs (pi : list F) st,
    forward A pobs pi None None st
    = (Return (impl_forward A pobs pi (np_zeros_like pobs) None (shape0 A)), st)
    /\ forward A pobs pi (Some (shape0 pobs)) None st
       = (Return (impl_forward A pobs pi (np_zeros_like pobs)
                               (Some (shape0 pobs)) (shape0 A)), st)
    /\ forward A pobs pi None None st
       <> forward A pobs pi (Some (shape0 pobs)) None st.
Proof.
  intros A pobs pi st.
  assert (H2 : forward A pobs pi (Some (shape0 pobs)) None st
               = (Return (impl_forward A pobs pi (np_zeros_like pobs)
                                       (Some (shape0 pobs)) (shape0 A)), st)).
  { unfold forward, bind, ret, raise. rewrite Z_gtb_irrefl. reflexivity. }
  split; [reflexivity | split; [exact H2 |]].
  rewrite H2. unfold forward, bind, ret. simpl. intros H. discriminate H.
Qed.

(** C9: with [T] omitted and a buffer [alpha] passed, [forward] raises (the
    comparison of [None] with the buffer's row count is refused), whatever
    the size of the buffer, and the globals are untouched. *)
Theorem forward_omitted_T_with_buffer_raises :
  forall A pobs (pi : list F) buffer st,
    exists e, forward A pobs pi None (Some buffer) st = (Raise e, st)
              /\ class_of e = TypeError_class.
Proof.
  intros. eexists. split; reflexivity.
Qed.

(** ** The classes of the validation errors *)

(** C2 (the code departs from the claim): for a requested length beyond the
    rows of [pobs], [forward] raises a [TypeError] and [backward],
    [transition_counts] and [sample_path] raise a [ValueError], with the
    same message in the first three. *)
Theorem too_long_T_raises_two_classes :
  forall A pobs (pi : list F) alpha beta st (excess : positive),
    let T := Some (shape0 pobs + Z.pos excess)%Z in
    fst (forward A pobs pi T None st)
    = Raise (TypeError "T must be at most the length of pobs.")
    /\ fst (backward A pobs T None st)
       = Raise (ValueError "T must be at most the length of pobs.")
    /\ fst (transition_counts alpha beta A pobs T None st)
       = Raise (ValueError "T must be at most the length of pobs.")
    /\ fst (sample_path alpha A pobs T st)
       = Raise (ValueError "T must be at most the length of pobs and alpha.")
    /\ class_of (TypeError "T must be at most the length of pobs.")
       <> class_of (ValueError "T must be at most the length of pobs.").
Proof.
  intros A pobs pi alpha beta st excess T.
  assert (Hgt : (shape0 pobs + Z.pos excess >? shape0 pobs)%Z = true)
    by (apply Z.gtb_lt; lia).
  unfold T, forward, backward, transition_counts, sample_path, bind, ret, raise.
  rewrite Hgt. simpl. repeat split. discriminate.
Qed.

(** ** The cache of ones *)

Lemma get_summation_helper_consistent (alpha : ndarray F) st :
  cache_consistent st -> cache_consistent (snd (get_summation_helper alpha st)).
Proof.
  intros H. rewrite get_summation_helper_globals.
  destruct (_ones_size st =? shape1 alpha)%Z; [exact H|].
  unfold cache_consistent; simpl. exists (ncols alpha). split; reflexivity.
Qed.

Lemma reachable_consistent (st : globals F) : reachable st -> cache_consistent st.
Proof.
  induction 1 as [|c st Hr IH].
  - reflexivity.
  - rewrite run_globals. destruct c; try exact IH.
    apply get_summation_helper_consistent, IH.
Qed.

(** After a call of [state_probabilities] on an [alpha] of [N] columns,
    returning or raising, [_ones_size] is [N], and [_ones] is a column of
    [N] ones as soon as [N >= 1] or the cache had been built before; no
    other operation changes the globals. *)
Lemma ones_cache_after_call (c : api_call F) st :
  reachable st ->
  match c with
  | call_state_probabilities alpha _ _ _ =>
      _ones_size (snd (run c st)) = shape1 alpha
      /\ ((0 < ncols alpha)%nat \/ _ones st <> None ->
          _ones (snd (run c st)) = Some (np_ones_column (ncols alpha)))
  | _ => snd (run c st) = st
  end.
Proof.
  intros Hr. apply reachable_consistent in Hr.
  rewrite run_globals.
  destruct c; try reflexivity.
  rewrite get_summation_helper_globals.
  destruct (_ones_size st =? shape1 alpha)%Z eqn:Hsz; simpl.
  - apply Z.eqb_eq in Hsz. split; [exact Hsz|].
    unfold cache_consistent in Hr.
    destruct (_ones st) as [o|].
    + intros _. destruct Hr as [n [-> Hn]].
      unfold shape1 in Hsz. f_equal. f_equal. lia.
    + intros [Hpos | Hne]; [|contradiction].
      unfold shape1 in Hsz. lia.
  - split; reflexivity.
Qed.

End Globals.

(** ** The bounds check of the path sampler *)

(** C7 (the code departs from the claim): with [T] omitted, [sample_path]
    takes the row count of [pobs] and goes on to the kernel without looking
    at the rows of [alpha]; on an [alpha] of one row and a [pobs] of two
    rows the kernel is called with [T = 2]. *)
Theorem sample_path_default_T_skips_alpha_check :
  (forall (alpha A pobs : ndarray Q) st,
      sample_path alpha A pobs None st
      = (Return (impl_sample_path alpha A pobs (repeat 0%nat (nrows pobs))
                                  (shape0 pobs) (shape1 pobs)), st))
  /\ sample_path ones_1x2 ones_2x2 ones_2x2 None initial_globals
     = (Return (impl_sample_path ones_1x2 ones_2x2 ones_2x2 [0; 0]%nat 2 2),
        initial_globals)
  /\ (shape0 ones_1x2 < 2)%Z.
Proof.
  split; [| split; [reflexivity | reflexivity]].
  intros alpha A pobs st.
  unfold sample_path, bind, ret, lift, np_zeros_int, shape0.
  replace (Z.of_nat (nrows pobs) <? 0)%Z with false
    by (symmetry; apply Z.ltb_ge; lia).
  rewrite Nat2Z.id. reflexivity.
Qed.

(** C10 (the code departs from the claim): the first call of the module, on
    an [alpha] without columns, finds the recorded size 0 equal to the
    column count and leaves [_ones] unset, which is not a column of zero
    ones. *)
Theorem no_columns_leaves_ones_unset :
  reachable (initial_globals (F := Q))
  /\ _ones (snd (state_probabilities empty_1x0 empty_1x0 None None initial_globals))
     = None
  /\ _ones (snd (state_probabilities empty_1x0 empty_1x0 None None initial_globals))
     <> Some (np_ones_column (ncols empty_1x0)).
Proof.
  split; [constructor | split; [reflexivity | discriminate]].
Qed.

(** ** What a failed call leaves behind *)

Section Failures.

Context {F : Type} {ar : Arith F}.

(** The buffer after a call of [state_probabilities]: as it came unless the
    product was accepted, which is then written, and replaced by the
    quotient when the call returns. *)
Lemma state_probabilities_buffer (alpha beta : ndarray F) T gamma_out st :
  snd (snd (state_probabilities_in_place alpha beta T (st, gamma_out)))
  = match gamma_out with
    | None => None
    | Some g =>
        if negb (shape0 alpha =? shape0 beta)%Z then Some g
        else match product_step alpha beta T gamma_out with
             | Raise _ => Some g
             | Return m =>
                 match fst (state_probabilities alpha beta T gamma_out st) with
                 | Return gamma => Some gamma
                 | Raise _ => Some m
                 end
             end
    end.
Proof.
  rewrite state_probabilities_outcome.
  rewrite state_probabilities_in_place_cases. cbv zeta.
  destruct (negb (shape0 alpha =? shape0 beta)%Z);
    [destruct gamma_out; reflexivity|].
  destruct (product_step alpha beta T gamma_out) as [m|e];
    [|destruct gamma_out; reflexivity].
  destruct (_ones (snd (get_summation_helper alpha st))) as [ones|];
    [|destruct gamma_out; reflexivity].
  destruct (np_dot m ones) as [d|e]; [|destruct gamma_out; reflexivity].
  destruct (np_divide_out m d m); destruct gamma_out; reflexivity.
Qed.

Lemma bind_ret_raises {S X Y} (m : St S X) (f : X -> Y) st e :
  fst ((x <- m ;; ret (f x)) st) = Raise e -> fst (m st) = Raise e.
Proof.
  unfold bind, ret. destruct (m st) as [[x|e'] st']; simpl; intros H;
    [discriminate H | injection H as ->; reflexivity].
Qed.

Lemma ufunc2_raises f (x y : ndarray F) e :
  ufunc2 f x y = Raise e -> e = NumpyError ValueError_class operands_not_broadcastable.
Proof.
  unfold ufunc2.
  destruct (broadcast_dim (nrows x) (nrows y)) as [r|];
    [destruct (broadcast_dim (ncols x) (ncols y)) as [c|] |];
    intros H; try discriminate; injection H as <-; reflexivity.
Qed.

Lemma ufunc2_out_raises f (x y out : ndarray F) e :
  ufunc2_out f x y out = Raise e -> exists k, e = NumpyError ValueError_class k.
Proof.
  unfold ufunc2_out. destruct (ufunc2 f x y) as [z|e'] eqn:Hz.
  - destruct (fits (nrows z) (nrows out) && fits (ncols z) (ncols out));
      [discriminate|].
    destruct (clashes (nrows z) (nrows out) || clashes (ncols z) (ncols out));
      intros H; injection H as <-; eexists; reflexivity.
  - intros H. injection H as <-. rewrite (ufunc2_raises f x y e' Hz).
    eexists; reflexivity.
Qed.

Lemma np_dot_raises (g b : ndarray F) e :
  np_dot g b = Raise e -> e = NumpyError ValueError_class shapes_not_aligned.
Proof.
  unfold np_dot. destruct (ncols g =? nrows b)%nat; intros H;
    [discriminate | injection H as <-; reflexivity].
Qed.

Lemma product_step_raises (alpha beta : ndarray F) T gamma_out e :
  product_step alpha beta T gamma_out = Raise e ->
  exists k, e = NumpyError ValueError_class k.
Proof.
  unfold product_step, np_multiply, np_multiply_out.
  destruct gamma_out as [g|].
  - destruct (shape0 g <? shape0 alpha)%Z; apply ufunc2_out_raises.
  - destruct (ufunc2 fmul alpha beta) as [z|e'] eqn:Hz; intros H;
      [discriminate | injection H as <-].
    rewrite (ufunc2_raises _ _ _ _ Hz). eexists; reflexivity.
Qed.

(** C3, amended: a call that ends in an error has left the globals and the
    output buffer as they were, with two exceptions, both in
    [state_probabilities]: the cache of ones has been rebuilt for the column
    count of [alpha] when the recorded size was another one, and an error
    raised from within numpy once the product was accepted finds the
    product written into the buffer. An error raised by a check of the
    module itself never comes after a write. *)
Theorem failed_call_leaves_state (c : api_call F) st e :
  fst (run c st) = Raise e ->
  snd (run c st)
  = match c with
    | call_state_probabilities alpha _ _ _ =>
        if (_ones_size st =? shape1 alpha)%Z then st
        else {| _ones := Some (np_ones_column (ncols alpha));
                _ones_size := shape1 alpha |}
    | _ => st
    end
  /\ (buffer_after c st = out_buffer c
      \/ exists cls k alpha beta T g m,
           e = NumpyError cls k
           /\ c = call_state_probabilities alpha beta T (Some g)
           /\ product_step alpha beta T (Some g) = Return m
           /\ buffer_after c st = Some (Matrix_buffer m)).
Proof.
  intros H. split.
  - rewrite run_globals. destruct c; try reflexivity.
    apply get_summation_helper_globals.
  - destruct c; try (left; reflexivity).
    + (* state_probabilities *)
      unfold run in H. apply bind_ret_raises in H.
      unfold buffer_after, out_buffer.
      rewrite state_probabilities_buffer.
      destruct gamma_out as [g|]; [|left; reflexivity].
      rewrite H.
      rewrite state_probabilities_outcome in H.
      destruct (negb (shape0 alpha =? shape0 beta)%Z); [left; reflexivity|].
      destruct (product_step alpha beta T (Some g)) as [m|e'] eqn:Hm;
        [|left; reflexivity].
      right.
      assert (He : exists cls k, e = NumpyError cls k).
      { destruct (_ones (snd (get_summation_helper alpha st))) as [ones|].
        - destruct (np_dot m ones) as [d|e'] eqn:Hd.
          + destruct (ufunc2_out_raises _ _ _ _ _ H) as [k ->].
            eexists; eexists; reflexivity.
          + injection H as <-. rewrite (np_dot_raises _ _ _ Hd).
            eexists; eexists; reflexivity.
        - injection H as <-. eexists; eexists; reflexivity. }
      destruct He as [cls [k He]].
      exists cls, k, alpha, beta, T, g, m. auto.
    + (* state_counts *)
      unfold run in H. apply bind_ret_raises in H.
      rewrite state_counts_cases in H. cbn [fst] in H.
      unfold buffer_after, out_buffer.
      rewrite state_counts_in_place_cases, H. left. reflexivity.
Qed.

End Failures.

(** C3, counterexample: on an [alpha] of one row and a [beta] of two rows,
    [state_probabilities] raises the error of inconsistent sizes and has
    by then rebuilt the cache of ones; and on a product of one column that
    a buffer of three columns accepts, it raises from [np.dot] and has by
    then overwritten the buffer. *)
Lemma failed_state_probabilities_rebuilt_cache :
  (state_probabilities ones_1x2 ones_2x2 None None initial_globals
   = (Raise (ValueError "Inconsistent sizes of alpha and beta."),
      {| _ones := Some (np_ones_column 2); _ones_size := 2 |})
   /\ {| _ones := Some (np_ones_column 2); _ones_size := 2 |}
      <> initial_globals (F := Q))
  /\ (fst (run (call_state_probabilities twos_2x1 ones_2x1 None (Some ones_2x3))
               initial_globals)
      = Raise (NumpyError ValueError_class shapes_not_aligned)
      /\ buffer_after (call_state_probabilities twos_2x1 ones_2x1 None (Some ones_2x3))
                      initial_globals
         = Some (Matrix_buffer (mk_ndarray 3 [[2; 2; 2]; [2; 2; 2]]%Q))
      /\ mk_ndarray 3 [[2; 2; 2]; [2; 2; 2]]%Q <> ones_2x3).
Proof.
  split; [split; [reflexivity | discriminate] |].
  split; [reflexivity | split; [reflexivity | discriminate]].
Qed.

Lemma failed_call_leaves_state_witness :
  fst (run (call_state_probabilities ones_1x2 ones_2x2 None (Some ones_2x3))
           initial_globals)
  = Raise (ValueError "Inconsistent sizes of alpha and beta.")
  /\ snd (run (call_state_probabilities ones_1x2 ones_2x2 None (Some ones_2x3))
              initial_globals)
     = {| _ones := Some (np_ones_column 2); _ones_size := 2 |}
  /\ buffer_after (call_state_probabilities ones_1x2 ones_2x2 None (Some ones_2x3))
                  initial_globals
     = Some (Matrix_buffer ones_2x3).
Proof.
  split; [reflexivity |].
  pose proof (failed_call_leaves_state
                (call_state_probabilities ones_1x2 ones_2x2 None (Some ones_2x3))
                initial_globals
                (ValueError "Inconsistent sizes of alpha and beta.") eq_refl)
    as [Hg Hb].
  split; [exact Hg |].
  destruct Hb as [Hb | [cls [k [a [b [T [g [m [He _]]]]]]]]];
    [exact Hb | discriminate He].
Defined.

(** ** Lists of rows *)

Lemma zip_with_length {X Y W} (f : X -> Y -> W) l m :
  length (zip_with f l m) = Nat.min (length l) (length m).
Proof.
  revert m; induction l as [|x l IH]; intros [|y m]; simpl; auto.
Qed.






Lemma Forall_firstn {X} (P : X -> Prop) k l : Forall P l -> Forall P (firstn k l).
Proof.
  intros H; revert k; induction H; intros [|k]; simpl; auto.
Qed.

Lemma slice_stop_nonneg T n : (0 <= T)%Z -> slice_stop T n = Z.to_nat T.
Proof.
  intros H. unfold slice_stop.
  replace (T <? 0)%Z with false by (symmetry; apply Z.ltb_ge; lia). reflexivity.
Qed.

(** ** State counts *)

Section StateCounts.

Context {F : Type} {ar : Arith F}.


End StateCounts.



(** ** Broadcasting *)

Lemma stretch_same {X} (l : list X) n : length l = n -> stretch n l = l.
Proof.
  intros H. unfold stretch. rewrite H, Nat.eqb_refl. reflexivity.
Qed.


Lemma map_stretch_same {X} (rows : list (list X)) c :
  Forall (fun r => length r = c) rows -> map (stretch c) rows = rows.
Proof.
  induction 1 as [|r rows Hr _ IH]; simpl; [reflexivity|].
  rewrite (stretch_same r c Hr), IH. reflexivity.
Qed.

Lemma broadcast_dim_same n : broadcast_dim n n = Some n.
Proof. unfold broadcast_dim. rewrite Nat.eqb_refl. reflexivity. Qed.

Lemma broadcast_dim_one n : broadcast_dim n 1 = Some n.
Proof.
  unfold broadcast_dim.
  destruct (n =? 1)%nat eqn:E; [|reflexivity].
  apply Nat.eqb_eq in E. subst. reflexivity.
Qed.

Lemma clashes_same n : clashes n n = false.
Proof. unfold clashes. rewrite Nat.eqb_refl. reflexivity. Qed.

Lemma zip_with_rows_length {X} (f : X -> X -> X) (xs ys : list (list X)) c :
  Forall (fun r => length r = c) xs -> Forall (fun r => length r = c) ys ->
  Forall (fun r => length r = c) (zip_with (zip_with f) xs ys).
Proof.
  intros Hx; revert ys; induction Hx as [|x xs Hx _ IH]; intros ys Hy; simpl.
  - constructor.
  - destruct Hy as [|y ys Hy Hys]; constructor.
    + rewrite zip_with_length, Hx, Hy. apply Nat.min_id.
    + apply IH, Hys.
Qed.

Lemma stretch_singleton {X} (x : X) n : stretch n [x] = repeat x n.
Proof.
  unfold stretch; simpl. destruct n as [|[|n]]; reflexivity.
Qed.

Lemma zip_with_map_r {X Y W} (f : X -> Y -> W) (g : X -> Y) (l : list X) :
  zip_with f l (map g l) = map (fun x => f x (g x)) l.
Proof.
  induction l as [|x l IH]; simpl; [reflexivity|]. f_equal. exact IH.
Qed.

Lemma zip_with_repeat_r {X} (f : X -> X -> X) (r : list X) s n :
  (length r <= n)%nat -> zip_with f r (repeat s n) = map (fun x => f x s) r.
Proof.
  revert n; induction r as [|x r IH]; intros [|n] H; simpl in *; try lia; auto.
  f_equal. apply IH. lia.
Qed.


Lemma firstn_zip_with {X Y W} (f : X -> Y -> W) k l m :
  firstn k (zip_with f l m) = zip_with f (firstn k l) (firstn k m).
Proof.
  revert l m; induction k as [|k IH]; intros [|x l] [|y m]; simpl; auto.
  f_equal. apply IH.
Qed.



Section StateProbabilities.

Context {F : Type} {ar : Arith F}.

(** A ufunc on two arrays of one shape works entry by entry. *)
Lemma ufunc2_same_shape f (x y : ndarray F) :
  well_shaped x -> well_shaped y -> ncols y = ncols x -> nrows y = nrows x ->
  ufunc2 f x y
  = Return {| ncols := ncols x; data := zip_with (zip_with f) (data x) (data y) |}.
Proof.
  intros Hx Hy Hc Hr. unfold ufunc2.
  rewrite Hr, Hc, !broadcast_dim_same. unfold broadcast_to; simpl.
  rewrite (map_stretch_same (data x)) by exact Hx.
  rewrite (map_stretch_same (data y)) by (rewrite <- Hc; exact Hy).
  rewrite !stretch_same by (unfold nrows in *; congruence).
  reflexivity.
Qed.



Lemma take_rows_nrows T (a : ndarray F) :
  nrows (take_rows T a) = Nat.min (slice_stop T (nrows a)) (nrows a).
Proof. unfold nrows, take_rows; simpl. apply length_firstn. Qed.

Lemma take_rows_well_shaped T (a : ndarray F) :
  well_shaped a -> well_shaped (take_rows T a).
Proof. intros H. unfold well_shaped, take_rows; simpl. apply Forall_firstn, H. Qed.

(** A ufunc on two arrays of one shape, writing into an array of as many
    columns. *)
Lemma ufunc2_out_same_shape f (x y out : ndarray F) :
  well_shaped x -> well_shaped y -> ncols y = ncols x -> nrows y = nrows x ->
  ncols out = ncols x ->
  ufunc2_out f x y out
  = if fits (nrows x) (nrows out)
    then Return {| ncols := ncols x;
                   data := stretch (nrows out)
                                   (zip_with (zip_with f) (data x) (data y)) |}
    else if clashes (nrows x) (nrows out)
    then Raise (NumpyError ValueError_class operands_not_broadcastable)
    else Raise (NumpyError ValueError_class output_not_broadcastable).
Proof.
  intros Hx Hy Hc Hr Ho. unfold ufunc2_out.
  rewrite (ufunc2_same_shape f x y Hx Hy Hc Hr).
  assert (Hn : nrows {| ncols := ncols x;
                        data := zip_with (zip_with f) (data x) (data y) |}
               = nrows x).
  { unfold nrows in *; simpl. rewrite zip_with_length, Hr. apply Nat.min_id. }
  rewrite !Hn. cbn [ncols].
  rewrite Ho, clashes_same, orb_false_r.
  assert (Hfc : fits (ncols x) (ncols x) = true)
    by (unfold fits; rewrite Nat.eqb_refl; reflexivity).
  rewrite Hfc, andb_true_r.
  destruct (fits (nrows x) (nrows out)); [|reflexivity].
  unfold broadcast_to; simpl. rewrite map_stretch_same; [reflexivity|].
  apply zip_with_rows_length; [exact Hx | rewrite <- Hc; exact Hy].
Qed.

(** ** The steps of [state_probabilities] *)





(** ** The row count of the returned gamma *)


(** ** The normalisation of [state_probabilities] *)

Lemma column_ones n : column 0 (np_ones_column n) = repeat fone n.
Proof.
  unfold column, np_ones_column; simpl.
  induction n as [|n IH]; simpl; [reflexivity|]. f_equal. exact IH.
Qed.

(** Dividing the rows of [m] by their inner product with the column of
    ones. *)
Lemma normalisation_step (m : ndarray F) :
  well_shaped m ->
  exists d,
    np_dot m (np_ones_column (ncols m)) = Return d
    /\ np_divide_out m d m
       = Return {| ncols := ncols m;
                   data := map (fun r => map (fun x => fdiv x (fdot r (repeat fone (ncols m)))) r)
                               (data m) |}.
Proof.
  intros Hm. set (N := ncols m).
  set (s := fun r : list F => fdot r (repeat fone N)).
  exists {| ncols := 1; data := map (fun r => [s r]) (data m) |}.
  split.
  - unfold np_dot. unfold nrows at 1. simpl. rewrite repeat_length.
    fold N. rewrite Nat.eqb_refl. f_equal. f_equal.
    apply map_ext. intros r. unfold s. rewrite column_ones. reflexivity.
  - unfold np_divide_out, ufunc2_out, ufunc2.
    unfold nrows at 1 2; simpl. rewrite length_map.
    fold N. rewrite broadcast_dim_same, broadcast_dim_one.
    unfold broadcast_to; simpl.
    rewrite (map_stretch_same (data m)) by exact Hm.
    rewrite (stretch_same (data m)) by reflexivity.
    rewrite map_map.
    rewrite (stretch_same (map _ (data m))) by apply length_map.
    assert (Hrows :
      zip_with (zip_with fdiv) (data m)
               (map (fun r => stretch N [s r]) (data m))
      = map (fun r => map (fun x => fdiv x (s r)) r) (data m)).
    { rewrite zip_with_map_r.
      apply map_ext_in. intros r Hr.
      rewrite stretch_singleton. apply zip_with_repeat_r.
      unfold well_shaped in Hm. rewrite Forall_forall in Hm.
      rewrite (Hm r Hr). apply Nat.le_refl. }
    rewrite Hrows.
    unfold nrows, fits; simpl. rewrite length_map, !Nat.eqb_refl. simpl.
    f_equal. f_equal.
    rewrite map_stretch_same.
    + apply stretch_same. apply length_map.
    + rewrite Forall_forall. intros r' Hr'.
      apply in_map_iff in Hr'. destruct Hr' as [r [<- Hr]].
      rewrite length_map.
      unfold well_shaped in Hm. rewrite Forall_forall in Hm. exact (Hm r Hr).
Qed.

Lemma normalised_outcome (m : ndarray F) :
  well_shaped m ->
  match np_dot m (np_ones_column (ncols m)) with
  | Raise e => Raise e
  | Return d => np_divide_out m d m
  end
  = Return {| ncols := ncols m;
              data := map (fun r => map (fun x => fdiv x (fdot r (repeat fone (ncols m)))) r)
                          (data m) |}.
Proof.
  intros Hm. destruct (normalisation_step m Hm) as [d [Hd Hdiv]].
  rewrite Hd. exact Hdiv.
Qed.

(** ** The rows of the product *)




(** ** The returned gamma *)

Lemma get_summation_helper_size (alpha : ndarray F) st :
  _ones_size (snd (get_summation_helper alpha st)) = shape1 alpha.
Proof.
  rewrite get_summation_helper_globals.
  destruct (_ones_size st =? shape1 alpha)%Z eqn:E; [|reflexivity].
  apply Z.eqb_eq, E.
Qed.

(** On a state the module can be in, the helper read by the normalisation
    is the column of as many ones as [alpha] has columns. *)
Lemma get_summation_helper_ones (alpha : ndarray F) st ones :
  reachable st ->
  _ones (snd (get_summation_helper alpha st)) = Some ones ->
  ones = np_ones_column (ncols alpha).
Proof.
  intros Hr Ho.
  pose proof (get_summation_helper_consistent alpha st (reachable_consistent st Hr)) as Hc.
  pose proof (get_summation_helper_size alpha st) as Hs.
  unfold cache_consistent in Hc. rewrite Ho in Hc.
  destruct Hc as [n [-> Hn]]. unfold shape1 in Hs. f_equal. lia.
Qed.

Lemma get_summation_helper_built (alpha : ndarray F) st :
  reachable st -> (0 < ncols alpha)%nat ->
  _ones (snd (get_summation_helper alpha st)) = Some (np_ones_column (ncols alpha)).
Proof.
  intros Hr Hpos.
  pose proof (get_summation_helper_consistent alpha st (reachable_consistent st Hr)) as Hc.
  pose proof (get_summation_helper_size alpha st) as Hs.
  unfold cache_consistent in Hc.
  destruct (_ones (snd (get_summation_helper alpha st))) as [o|] eqn:Ho.
  - f_equal. eapply get_summation_helper_ones; eauto.
  - unfold shape1 in Hs. lia.
Qed.

(** A buffer as the function documents it, with as many rows as the
    length asked for and no more than [alpha] has, takes the rows computed
    for it without any spreading. *)
Lemma rows_written_documented (alpha g : ndarray F) T :
  (nrows g <= nrows alpha)%nat ->
  match T with
  | Some t => t = shape0 g
  | None => True
  end ->
  rows_written alpha T g = nrows g.
Proof.
  intros Hle HT. unfold rows_written.
  assert (HT' : determine_T alpha T (Some g) = shape0 g)
    by (destruct T as [t|]; [exact HT | reflexivity]).
  rewrite HT'.
  destruct (shape0 g <? shape0 alpha)%Z eqn:Hshort.
  - rewrite take_rows_nrows. unfold shape0.
    rewrite slice_stop_nonneg, Nat2Z.id by lia. apply Nat.min_l, Hle.
  - apply Z.ltb_ge in Hshort. unfold shape0 in Hshort. lia.
Qed.


End StateProbabilities.




(** ** The Viterbi decoder

    The kernel is followed in exact arithmetic, in which the joint
    probability of a path is a product of rationals. *)

Section ViterbiExact.

Local Open Scope Q_scope.

Section Recursion.

Variable A : ndarray Q.
Variable N : nat.
Hypothesis A_nonneg : nonneg A.

Lemma nonneg_nth (r : list Q) j : nonneg_row r -> 0 <= nth j r 0.
Proof.
  intros H. revert j; induction H as [|x r Hx _ IH]; intros [|j]; simpl;
    auto; apply Qle_refl.
Qed.

Lemma entry_nonneg i j : 0 <= entry A i j.
Proof.
  unfold entry. apply nonneg_nth.
  destruct (Nat.lt_ge_cases i (length (data A))) as [Hi|Hi].
  - unfold nonneg in A_nonneg. rewrite Forall_forall in A_nonneg.
    apply A_nonneg, nth_In, Hi.
  - rewrite nth_overflow by exact Hi. constructor.
Qed.

Lemma nth_map_seq {X} (f : nat -> X) n j d :
  (j < n)%nat -> nth j (map f (seq 0 n)) d = f j.
Proof.
  intros H. rewrite (nth_indep _ d (f 0%nat)) by (rewrite length_map, length_seq; exact H).
  rewrite (map_nth f), seq_nth by exact H. reflexivity.
Qed.

(** *** The argmax *)

Lemma argmax_from_spec (l pre : list Q) best bestv :
  (best < length pre)%nat -> nth best pre 0 = bestv ->
  (forall k, (k < length pre)%nat -> nth k pre 0 <= bestv) ->
  let r := argmax_from l (length pre) best bestv in
  (r < length (pre ++ l))%nat
  /\ forall k, (k < length (pre ++ l))%nat ->
       nth k (pre ++ l) 0 <= nth r (pre ++ l) 0.
Proof.
  revert pre best bestv; induction l as [|x l IH]; intros pre best bestv Hb Hv Hmax; simpl.
  - rewrite app_nil_r. split; [exact Hb|].
    intros k Hk. rewrite Hv. apply Hmax, Hk.
  - assert (Hlen : S (length pre) = length (pre ++ [x]))
      by (rewrite length_app; simpl; lia).
    assert (Happ : pre ++ x :: l = (pre ++ [x]) ++ l)
      by (rewrite <- app_assoc; reflexivity).
    rewrite Hlen, Happ.
    destruct (Qle_bool x bestv) eqn:Hle.
    + apply Qle_bool_iff in Hle.
      apply IH.
      * rewrite <- Hlen. lia.
      * rewrite app_nth1 by exact Hb. exact Hv.
      * intros k Hk. rewrite <- Hlen in Hk.
        destruct (Nat.eq_dec k (length pre)) as [->|Hne].
        -- rewrite nth_middle. exact Hle.
        -- rewrite app_nth1 by lia. apply Hmax. lia.
    + assert (Hlt : bestv < x).
      { apply Qnot_le_lt. intros H. apply Qle_bool_iff in H. congruence. }
      apply IH.
      * rewrite <- Hlen. lia.
      * apply nth_middle.
      * intros k Hk. rewrite <- Hlen in Hk.
        destruct (Nat.eq_dec k (length pre)) as [->|Hne].
        -- rewrite nth_middle. apply Qle_refl.
        -- rewrite app_nth1 by lia.
           apply Qle_trans with bestv; [apply Hmax; lia | apply Qlt_le_weak, Hlt].
Qed.

(** The argmax of a list that is not empty is an index of a largest
    entry. *)
Lemma argmax_spec (l : list Q) :
  l <> [] ->
  (argmax l < length l)%nat
  /\ forall k, (k < length l)%nat -> nth k l 0 <= nth (argmax l) l 0.
Proof.
  destruct l as [|x l]; [congruence|]. intros _.
  apply (argmax_from_spec l [x] 0%nat x).
  - simpl; lia.
  - reflexivity.
  - intros [|k] Hk; simpl in *; [apply Qle_refl | lia].
Qed.

Lemma viterbi_scores_length delta j : length (viterbi_scores A N delta j) = N.
Proof. unfold viterbi_scores. rewrite length_map, length_seq. reflexivity. Qed.

Lemma viterbi_scores_nth delta j i :
  (i < N)%nat -> nth i (viterbi_scores A N delta j) 0 = nth i delta 0 * entry A i j.
Proof.
  intros H. unfold viterbi_scores.
  exact (nth_map_seq (fun i => nth i delta 0 * entry A i j) N i 0 H).
Qed.

(** The back pointer of [j] is a state, and no predecessor scores
    higher. *)
Lemma argmax_scores delta j :
  (0 < N)%nat ->
  (argmax (viterbi_scores A N delta j) < N)%nat
  /\ forall i, (i < N)%nat ->
       nth i delta 0 * entry A i j
       <= nth (argmax (viterbi_scores A N delta j)) delta 0
          * entry A (argmax (viterbi_scores A N delta j)) j.
Proof.
  intros HN.
  assert (Hne : viterbi_scores A N delta j <> []).
  { intros H. apply (f_equal (@length Q)) in H.
    rewrite viterbi_scores_length in H. simpl in H. lia. }
  destruct (argmax_spec _ Hne) as [Hlt Hmax].
  rewrite viterbi_scores_length in Hlt, Hmax.
  split; [exact Hlt|].
  intros i Hi. specialize (Hmax i Hi).
  rewrite !viterbi_scores_nth in Hmax by assumption. exact Hmax.
Qed.

Lemma viterbi_step_delta delta b j :
  (j < N)%nat ->
  nth j (fst (viterbi_step A N delta b)) 0
  = nth (argmax (viterbi_scores A N delta j)) delta 0
    * entry A (argmax (viterbi_scores A N delta j)) j * nth j b 0.
Proof.
  intros Hj. unfold viterbi_step; simpl.
  rewrite (nth_map_seq _ N j 0 Hj). cbv zeta.
  rewrite viterbi_scores_nth; [reflexivity|].
  apply argmax_scores. lia.
Qed.

Lemma viterbi_step_ptr delta b j :
  (j < N)%nat ->
  nth j (snd (viterbi_step A N delta b)) 0%nat = argmax (viterbi_scores A N delta j).
Proof.
  intros Hj. unfold viterbi_step; simpl.
  exact (nth_map_seq (fun j => argmax (viterbi_scores A N delta j)) N j 0%nat Hj).
Qed.

(** *** No path beats the recursion *)

Lemma last_cons_default {X} (q : list X) s d : last (s :: q) d = last q s.
Proof.
  revert s d; induction q as [|x q IH]; intros s d; [reflexivity|].
  change (last (s :: x :: q) d) with (last (x :: q) d).
  rewrite (IH x d), (IH x s). reflexivity.
Qed.

Lemma viterbi_forward_upper (obs : list (list Q)) :
  Forall nonneg_row obs ->
  forall delta ptrs q acc prev,
    length q = length obs -> Forall (fun s => (s < N)%nat) q -> (prev < N)%nat ->
    acc <= nth prev delta 0 ->
    path_prob_from A acc prev obs q
    <= nth (last q prev) (fst (viterbi_forward A N delta ptrs obs)) 0.
Proof.
  induction 1 as [|b obs Hb _ IH]; intros delta ptrs q acc prev Hlen Hq Hprev Hacc.
  - destruct q; [|discriminate]. simpl. exact Hacc.
  - destruct q as [|s q]; [discriminate|].
    inversion Hq as [|? ? Hs Hq']; subst.
    cbn [path_prob_from viterbi_forward].
    destruct (viterbi_step A N delta b) as [delta' ptr] eqn:Hstep.
    rewrite last_cons_default.
    apply IH; [simpl in Hlen; lia | exact Hq' | exact Hs |].
    replace delta' with (fst (viterbi_step A N delta b)) by (rewrite Hstep; reflexivity).
    rewrite viterbi_step_delta by exact Hs.
    destruct (argmax_scores delta s ltac:(lia)) as [_ Hmax].
    specialize (Hmax prev Hprev).
    pose proof (entry_nonneg prev s) as HA.
    pose proof (nonneg_nth b s Hb) as Hbs.
    set (best := nth (argmax (viterbi_scores A N delta s)) delta 0
                 * entry A (argmax (viterbi_scores A N delta s)) s) in *.
    apply Qle_trans with (nth prev delta 0 * entry A prev s * nth s b 0).
    + setoid_replace (acc * (entry A prev s * nth s b 0))
        with (acc * entry A prev s * nth s b 0) by ring.
      apply Qmult_le_compat_r; [|exact Hbs].
      apply Qmult_le_compat_r; [exact Hacc | exact HA].
    + apply Qmult_le_compat_r; [exact Hmax | exact Hbs].
Qed.

End Recursion.

(** *** The path read back attains the recursion's value *)

Lemma path_prob_from_snoc (A : ndarray Q) (obs : list (list Q)) :
  forall q acc prev b s,
    length q = length obs ->
    path_prob_from A acc prev (obs ++ [b]) (q ++ [s])
    = path_prob_from A acc prev obs q * (entry A (last q prev) s * nth s b 0).
Proof.
  induction obs as [|b0 obs IH]; intros [|s0 q] acc prev b s Hlen;
    try discriminate; simpl app; cbn [path_prob_from].
  - reflexivity.
  - rewrite IH by (simpl in Hlen; lia).
    rewrite last_cons_default. reflexivity.
Qed.

Lemma path_prob_rows_snoc (A : ndarray Q) pi done p b s :
  done <> [] -> length p = length done ->
  path_prob_rows A pi (done ++ [b]) (p ++ [s])
  = path_prob_rows A pi done p * (entry A (last p 0%nat) s * nth s b 0).
Proof.
  destruct done as [|b0 obs]; [congruence|]. intros _.
  destruct p as [|s0 q]; [discriminate|]. intros Hlen.
  simpl app. unfold path_prob_rows.
  rewrite path_prob_from_snoc by (simpl in Hlen; lia).
  rewrite last_cons_default. reflexivity.
Qed.

Lemma viterbi_step_survivors (A : ndarray Q) N pi done delta ptrs b :
  done <> [] ->
  survivors_ok A N pi done delta ptrs ->
  survivors_ok A N pi (done ++ [b])
               (fst (viterbi_step A N delta b))
               (snd (viterbi_step A N delta b) :: ptrs).
Proof.
  intros Hne Hinv j Hj. cbv zeta. cbn [backtrack rev].
  rewrite viterbi_step_ptr by exact Hj.
  set (i := argmax (viterbi_scores A N delta j)).
  assert (Hi : (i < N)%nat) by (apply argmax_scores; lia).
  destruct (Hinv i Hi) as [Hlen [Hall [Hlast Hprob]]].
  split; [| split; [| split]].
  - rewrite !length_app, Hlen. reflexivity.
  - apply Forall_app. split; [exact Hall | constructor; [exact Hj | constructor]].
  - apply last_last.
  - rewrite path_prob_rows_snoc by assumption.
    rewrite Hlast, Hprob, viterbi_step_delta by exact Hj.
    fold i. ring.
Qed.

Lemma viterbi_forward_survivors (A : ndarray Q) N pi (obs : list (list Q)) :
  forall done delta ptrs,
    done <> [] ->
    survivors_ok A N pi done delta ptrs ->
    survivors_ok A N pi (done ++ obs)
                 (fst (viterbi_forward A N delta ptrs obs))
                 (snd (viterbi_forward A N delta ptrs obs)).
Proof.
  induction obs as [|b obs IH]; intros done delta ptrs Hne Hinv.
  - rewrite app_nil_r. exact Hinv.
  - cbn [viterbi_forward].
    pose proof (viterbi_step_survivors A N pi done delta ptrs b Hne Hinv) as Hstep.
    destruct (viterbi_step A N delta b) as [delta' ptr].
    replace (done ++ b :: obs) with ((done ++ [b]) ++ obs)
      by (rewrite <- app_assoc; reflexivity).
    apply IH; [|exact Hstep].
    intros H. apply app_eq_nil in H. destruct H as [_ H]. discriminate H.
Qed.

Lemma viterbi_init_survivors (A : ndarray Q) N pi b0 :
  survivors_ok A N pi [b0] (viterbi_init pi b0 N) [].
Proof.
  intros j Hj. cbv zeta. simpl.
  split; [reflexivity | split; [| split; [reflexivity |]]].
  - constructor; [exact Hj | constructor].
  - unfold viterbi_init.
    rewrite (nth_map_seq (fun i => fmul (nth i pi fzero) (nth i b0 fzero)) N j 0 Hj).
    reflexivity.
Qed.

Lemma viterbi_forward_length (A : ndarray Q) N (obs : list (list Q)) :
  forall delta ptrs,
    length delta = N ->
    length (fst (viterbi_forward A N delta ptrs obs)) = N.
Proof.
  induction obs as [|b obs IH]; intros delta ptrs Hlen; simpl.
  - exact Hlen.
  - apply IH. rewrite length_map, length_seq. reflexivity.
Qed.

Lemma last_in_range (q : list nat) s N :
  (s < N)%nat -> Forall (fun x => (x < N)%nat) q -> (last q s < N)%nat.
Proof.
  intros Hs Hq. revert s Hs; induction Hq as [|x q Hx _ IH]; intros s Hs.
  - exact Hs.
  - rewrite last_cons_default. apply IH, Hx.
Qed.

(** The kernel on the rows [b0 :: obs]: a path of states as long as the
    rows, at least as probable as any other. *)
Lemma viterbi_kernel_optimal (A : ndarray Q) N pi b0 obs q :
  nonneg A -> Forall nonneg_row obs ->
  length q = S (length obs) -> Forall (fun s => (s < N)%nat) q ->
  let r := viterbi_forward A N (viterbi_init pi b0 N) [] obs in
  let path := rev (backtrack (snd r) (argmax (fst r))) in
  length path = S (length obs)
  /\ Forall (fun s => (s < N)%nat) path
  /\ path_prob_rows A pi (b0 :: obs) q <= path_prob_rows A pi (b0 :: obs) path.
Proof.
  intros HA Hobs Hlen Hq r path.
  destruct q as [|s0 q']; [discriminate|].
  inversion Hq as [|? ? Hs0 Hq']; subst.
  assert (HN : (0 < N)%nat) by lia.
  assert (Hlr : length (fst r) = N).
  { apply viterbi_forward_length. unfold viterbi_init.
    rewrite length_map, length_seq. reflexivity. }
  assert (Hne : fst r <> []).
  { intros H. rewrite H in Hlr. simpl in Hlr. lia. }
  destruct (argmax_spec (fst r) Hne) as [Hbest Hmax].
  rewrite Hlr in Hbest, Hmax.
  pose proof (viterbi_forward_survivors A N pi obs [b0] (viterbi_init pi b0 N) []
                ltac:(discriminate) (viterbi_init_survivors A N pi b0)) as Hsurv.
  destruct (Hsurv _ Hbest) as [Hplen [Hpall [_ Hpprob]]].
  fold r in Hplen, Hpall, Hpprob. fold path in Hplen, Hpall, Hpprob.
  split; [exact Hplen | split; [exact Hpall |]].
  change ([b0] ++ obs) with (b0 :: obs) in Hpprob.
  rewrite Hpprob.
  apply Qle_trans with (nth (last q' s0) (fst r) 0).
  - unfold path_prob_rows.
    apply (viterbi_forward_upper A N HA obs Hobs);
      [simpl in Hlen; lia | exact Hq' | exact Hs0 |].
    unfold viterbi_init.
    rewrite (nth_map_seq (fun i => fmul (nth i pi fzero) (nth i b0 fzero)) N s0 0 Hs0).
    apply Qle_refl.
  - apply Hmax. apply last_in_range; assumption.
Qed.

(** C8: on a model of [N] states with nonnegative transition and
    observation probabilities, [viterbi] returns a path of [T] states, [T]
    the row count of [pobs], whose joint probability with the observations
    is at least that of every sequence [q] of [T] states. *)
Theorem viterbi_most_probable (A pobs : ndarray Q) pi q st :
  hmm_shaped A pobs pi ->
  nonneg A -> nonneg pobs ->
  length q = nrows pobs -> Forall (fun s => (s < nrows A)%nat) q ->
  exists path,
    viterbi A pobs pi st = (Return path, st)
    /\ length path = nrows pobs
    /\ Forall (fun s => (s < nrows A)%nat) path
    /\ path_prob A pobs pi q <= path_prob A pobs pi path.
Proof.
  intros _ HA Hpobs Hlen Hq.
  unfold viterbi, bind, ret, lift, np_zeros_int, shape0.
  replace (Z.of_nat (nrows pobs) <? 0)%Z with false
    by (symmetry; apply Z.ltb_ge; lia).
  unfold hidden_viterbi. rewrite !Nat2Z.id.
  unfold path_prob, nrows in *. rewrite firstn_all. unfold nonneg in Hpobs.
  destruct (data pobs) as [|b0 obs] eqn:Hrows.
  - exists []. simpl in Hlen. destruct q; [|discriminate].
    simpl. repeat split; try constructor. apply Qle_refl.
  - inversion Hpobs as [|? ? _ Hobs]; subst.
    destruct (viterbi_kernel_optimal A (length (data A)) pi b0 obs q HA Hobs Hlen Hq)
      as [Hplen [Hpall Hle]].
    destruct (viterbi_forward A (length (data A))
                (viterbi_init pi b0 (length (data A))) [] obs) as [delta ptrs].
    exists (rev (backtrack ptrs (argmax delta))).
    simpl in Hplen, Hpall, Hle. simpl length.
    split; [reflexivity | split; [exact Hplen | split; [exact Hpall | exact Hle]]].
Qed.

Lemma viterbi_most_probable_witness :
  hmm_shaped sticky_A noisy_pobs uniform_pi
  /\ nonneg sticky_A /\ nonneg noisy_pobs
  /\ exists path,
       viterbi sticky_A noisy_pobs uniform_pi initial_globals
       = (Return path, initial_globals)
       /\ length path = nrows noisy_pobs
       /\ Forall (fun s => (s < nrows sticky_A)%nat) path
       /\ path_prob sticky_A noisy_pobs uniform_pi [0; 1; 0]%nat
          <= path_prob sticky_A noisy_pobs uniform_pi path.
Proof.
  assert (Hshape : hmm_shaped sticky_A noisy_pobs uniform_pi)
    by (repeat split; repeat constructor).
  assert (HA : nonneg sticky_A)
    by (repeat constructor; vm_compute; discriminate).
  assert (Hp : nonneg noisy_pobs)
    by (repeat constructor; vm_compute; discriminate).
  assert (Hq : Forall (fun s => (s < nrows sticky_A)%nat) [0; 1; 0]%nat)
    by (unfold nrows; simpl; repeat constructor).
  split; [exact Hshape | split; [exact HA | split; [exact Hp |]]].
  exact (viterbi_most_probable sticky_A noisy_pobs uniform_pi [0; 1; 0]%nat
           initial_globals Hshape HA Hp eq_refl Hq).
Defined.

End ViterbiExact.

(** * Further properties of the module *)

Section Further.

Context {F : Type} {ar : Arith F}.

(** ** Omitted and explicit trajectory lengths *)

(** X1: in [backward] an omitted [T] stands for the row count of [pobs]:
    the call with [T] omitted and the call with [T = len(pobs)] agree, for
    every buffer and in every state. *)
Theorem backward_omitted_T_is_row_count :
  forall (A pobs : ndarray F) beta_out st,
    backward A pobs None beta_out st
    = backward A pobs (Some (shape0 pobs)) beta_out st.
Proof.
  intros. unfold backward, bind, ret, raise.
  rewrite Z_gtb_irrefl. reflexivity.
Qed.

(** X2: in [transition_counts] an omitted [T] stands for the row count of
    [pobs], whatever [alpha], [beta] and the output matrix are. *)
Theorem transition_counts_omitted_T_is_row_count :
  forall (alpha beta A pobs : ndarray F) out st,
    transition_counts alpha beta A pobs None out st
    = transition_counts alpha beta A pobs (Some (shape0 pobs)) out st.
Proof.
  intros. unfold transition_counts, bind, ret, raise.
  rewrite Z_gtb_irrefl. reflexivity.
Qed.

(** X3: in [sample_path] an omitted [T] stands for the row count of [pobs]
    as soon as [alpha] has at least as many rows as [pobs]. *)
Theorem sample_path_omitted_T_is_row_count (alpha A pobs : ndarray F) st :
  (shape0 pobs <= shape0 alpha)%Z ->
  sample_path alpha A pobs None st
  = sample_path alpha A pobs (Some (shape0 pobs)) st.
Proof.
  intros H. unfold sample_path, bind, ret, raise.
  rewrite Z_gtb_irrefl.
  replace (shape0 pobs >? shape0 alpha)%Z with false
    by (symmetry; rewrite Z.gtb_ltb; apply Z.ltb_ge; exact H).
  reflexivity.
Qed.

(** ** When the wrappers reach the kernel *)

(** X4: [forward] reaches the kernel exactly when [T] is given, is at most
    the row count of [pobs] and at most the row count of the buffer if there
    is one, or when both [T] and the buffer are omitted; a negative [T] is
    let through. *)
Theorem forward_returns_iff (A pobs : ndarray F) pi T alpha st :
  (exists k, fst (forward A pobs pi T alpha st) = Return k)
  <-> match T, alpha with
      | Some t, Some a => (t <= shape0 pobs)%Z /\ (t <= shape0 a)%Z
      | Some t, None => (t <= shape0 pobs)%Z
      | None, Some _ => False
      | None, None => True
      end.
Proof.
  unfold forward, bind, ret, raise, lift, py_gt.
  destruct T as [t|]; destruct alpha as [a|]; simpl.
  - destruct (t >? shape0 pobs)%Z eqn:H1; simpl.
    + split; [intros [k Hk]; discriminate |].
      intros [H _]. rewrite Z.gtb_ltb in H1. apply Z.ltb_lt in H1. lia.
    + rewrite Z.gtb_ltb in H1. apply Z.ltb_ge in H1.
      destruct (t >? shape0 a)%Z eqn:H2; simpl; rewrite Z.gtb_ltb in H2.
      * apply Z.ltb_lt in H2. split; [intros [k Hk]; discriminate | lia].
      * apply Z.ltb_ge in H2. split; [auto | intros _; eexists; reflexivity].
  - destruct (t >? shape0 pobs)%Z eqn:H1; simpl; rewrite Z.gtb_ltb in H1.
    + apply Z.ltb_lt in H1. split; [intros [k Hk]; discriminate | lia].
    + apply Z.ltb_ge in H1. split; [auto | intros _; eexists; reflexivity].
  - split; [intros [k Hk]; discriminate | contradiction].
  - split; [auto | intros _; eexists; reflexivity].
Qed.

(** X5: [backward] reaches the kernel exactly when the length it settles
    on, the given [T] or else the row count of [pobs], is at most the row
    count of [pobs] and of the buffer if there is one; the kernel then gets
    that length, [len(A)] and the buffer itself, or zeros of the full shape
    of [pobs]. *)
Theorem backward_returns_iff (A pobs : ndarray F) T beta_out st :
  let T' := match T with Some t => t | None => shape0 pobs end in
  let fits_all :=
    (T' <= shape0 pobs)%Z
    /\ match beta_out with
       | Some b => (T' <= shape0 b)%Z
       | None => True
       end in
  ((exists k, fst (backward A pobs T beta_out st) = Return k) <-> fits_all)
  /\ (fits_all ->
      fst (backward A pobs T beta_out st)
      = Return (impl_backward A pobs T' (shape0 A)
                  match beta_out with
                  | Some b => b
                  | None => np_zeros_like pobs
                  end)).
Proof.
  intros T' fits_all.
  assert (Hret : fits_all ->
      fst (backward A pobs T beta_out st)
      = Return (impl_backward A pobs T' (shape0 A)
                  match beta_out with
                  | Some b => b
                  | None => np_zeros_like pobs
                  end)).
  { intros [H1 H2]. subst T'. unfold backward, bind, ret, raise.
    destruct T as [t|]; simpl.
    - replace (t >? shape0 pobs)%Z with false
        by (symmetry; rewrite Z.gtb_ltb; apply Z.ltb_ge; exact H1).
      simpl. destruct beta_out as [b|]; simpl; [|reflexivity].
      replace (t >? shape0 b)%Z with false
        by (symmetry; rewrite Z.gtb_ltb; apply Z.ltb_ge; exact H2).
      reflexivity.
    - destruct beta_out as [b|]; simpl; [|reflexivity].
      replace (shape0 pobs >? shape0 b)%Z with false
        by (symmetry; rewrite Z.gtb_ltb; apply Z.ltb_ge; exact H2).
      reflexivity. }
  split; [| exact Hret].
  split; [| intros H; eexists; apply Hret, H].
  intros [k Hk]. subst fits_all T'.
  unfold backward, bind, ret, raise in Hk.
  destruct T as [t|]; simpl in Hk.
  - destruct (t >? shape0 pobs)%Z eqn:H1; simpl in Hk; [discriminate|].
    rewrite Z.gtb_ltb in H1. apply Z.ltb_ge in H1.
    destruct beta_out as [b|]; simpl in Hk; [|auto].
    destruct (t >? shape0 b)%Z eqn:H2; simpl in Hk; [discriminate|].
    rewrite Z.gtb_ltb in H2. apply Z.ltb_ge in H2. auto.
  - split; [lia|].
    destruct beta_out as [b|]; simpl in Hk; [|auto].
    destruct (shape0 pobs >? shape0 b)%Z eqn:H2; simpl in Hk; [discriminate|].
    rewrite Z.gtb_ltb in H2. apply Z.ltb_ge in H2. exact H2.
Qed.

(** X6: [sample_path] reaches the kernel exactly when [T] is omitted, or
    lies between 0 and the row counts of both [pobs] and [alpha]; the path
    buffer handed over then holds as many zeros as the length settled on. A
    negative [T] is refused when the buffer is allocated. *)
Theorem sample_path_returns_iff (alpha A pobs : ndarray F) T st :
  let T' := match T with Some t => t | None => shape0 pobs end in
  ((exists k, fst (sample_path alpha A pobs T st) = Return k)
   <-> match T with
       | Some t => (0 <= t <= shape0 pobs)%Z /\ (t <= shape0 alpha)%Z
       | None => True
       end)
  /\ (forall k, fst (sample_path alpha A pobs T st) = Return k ->
        k = impl_sample_path alpha A pobs (repeat 0%nat (Z.to_nat T')) T' (shape1 pobs))
  /\ ((T' < 0)%Z ->
      fst (sample_path alpha A pobs T st)
      = Raise (ValueError "negative dimensions are not allowed")).
Proof.
  intros T'. subst T'.
  unfold sample_path, bind, ret, raise, lift, np_zeros_int.
  destruct T as [t|]; simpl.
  - destruct (t >? shape0 pobs)%Z eqn:H1; rewrite Z.gtb_ltb in H1; simpl.
    + apply Z.ltb_lt in H1.
      split; [split; [intros [k Hk]; discriminate | lia] |].
      split; [intros k Hk; discriminate | intros Hn; unfold shape0 in H1; lia].
    + apply Z.ltb_ge in H1.
      destruct (t >? shape0 alpha)%Z eqn:H2; rewrite Z.gtb_ltb in H2; simpl.
      * apply Z.ltb_lt in H2.
        split; [split; [intros [k Hk]; discriminate | lia] |].
        split; [intros k Hk; discriminate | intros Hn; unfold shape0 in H2; lia].
      * apply Z.ltb_ge in H2.
        destruct (t <? 0)%Z eqn:H3; simpl.
        -- apply Z.ltb_lt in H3.
           split; [split; [intros [k Hk]; discriminate | lia] |].
           split; [intros k Hk; discriminate | reflexivity].
        -- apply Z.ltb_ge in H3.
           split; [split; [intros _; lia | intros _; eexists; reflexivity] |].
           split; [intros k Hk; injection Hk as <-; reflexivity | lia].
  - replace (shape0 pobs <? 0)%Z with false
      by (symmetry; apply Z.ltb_ge; unfold shape0; lia).
    simpl.
    split; [split; [auto | intros _; eexists; reflexivity] |].
    split; [intros k Hk; injection Hk as <-; reflexivity |].
    unfold shape0; lia.
Qed.

(** X7: [alpha] and [beta] of different row counts are refused with the
    error of inconsistent sizes, whatever [T], the buffer and the state of
    the module are. *)
Theorem state_probabilities_rejects_mismatch (alpha beta : ndarray F) T gamma_out st :
  nrows alpha <> nrows beta ->
  fst (state_probabilities alpha beta T gamma_out st)
  = Raise (ValueError "Inconsistent sizes of alpha and beta.").
Proof.
  intros H. rewrite state_probabilities_outcome.
  replace (shape0 alpha =? shape0 beta)%Z with false; [reflexivity|].
  symmetry. apply Z.eqb_neq. unfold shape0. lia.
Qed.

(** The product of two arrays of one shape, cut to the first rows a buffer
    of [g] rows can take. *)
Lemma product_step_short_buffer (alpha beta g : ndarray F) :
  well_shaped alpha -> well_shaped beta -> ncols beta = ncols alpha ->
  nrows beta = nrows alpha -> ncols g = ncols alpha ->
  (nrows g <= nrows alpha)%nat ->
  product_step alpha beta None (Some g)
  = Return {| ncols := ncols alpha;
              data := firstn (nrows g)
                        (zip_with (zip_with fmul) (data alpha) (data beta)) |}.
Proof.
  intros Ha Hb Hc Hr Hg Hle. unfold product_step, np_multiply_out.
  cbn [determine_T].
  destruct (shape0 g <? shape0 alpha)%Z eqn:Hshort.
  - rewrite (ufunc2_out_same_shape fmul (take_rows (shape0 g) alpha)
               (take_rows (shape0 g) beta) g);
      auto using take_rows_well_shaped;
      [| rewrite !take_rows_nrows, Hr; reflexivity].
    rewrite take_rows_nrows.
    unfold shape0. rewrite slice_stop_nonneg, Nat2Z.id by lia.
    rewrite Nat.min_l by exact Hle.
    unfold fits. rewrite Nat.eqb_refl. simpl.
    rewrite Hr, slice_stop_nonneg, Nat2Z.id by lia.
    rewrite <- firstn_zip_with.
    rewrite stretch_same; [reflexivity|].
    rewrite length_firstn, zip_with_length.
    unfold nrows in *. rewrite Hr, Nat.min_id. apply Nat.min_l, Hle.
  - apply Z.ltb_ge in Hshort. unfold shape0 in Hshort.
    assert (Heq : nrows g = nrows alpha) by lia.
    rewrite (ufunc2_out_same_shape fmul alpha beta g); auto.
    rewrite Heq. unfold fits. rewrite Nat.eqb_refl. simpl.
    rewrite stretch_same
      by (rewrite zip_with_length; unfold nrows in *; rewrite Hr; apply Nat.min_id).
    rewrite firstn_all2; [reflexivity|].
    rewrite zip_with_length. unfold nrows in *. rewrite Hr, Nat.min_id. lia.
Qed.

(** The product of two arrays of one shape, freshly allocated and cut at
    [T]. *)
Lemma product_step_fresh (alpha beta : ndarray F) T :
  well_shaped alpha -> well_shaped beta -> ncols beta = ncols alpha ->
  nrows beta = nrows alpha ->
  product_step alpha beta T None
  = Return (take_rows (determine_T alpha T None)
              {| ncols := ncols alpha;
                 data := zip_with (zip_with fmul) (data alpha) (data beta) |}).
Proof.
  intros Ha Hb Hc Hr. unfold product_step, np_multiply.
  rewrite (ufunc2_same_shape fmul alpha beta Ha Hb Hc Hr).
  set (P := {| ncols := ncols alpha;
               data := zip_with (zip_with fmul) (data alpha) (data beta) |}).
  set (T' := determine_T alpha T None).
  destruct (T' <? shape0 P)%Z eqn:Hlt; [reflexivity|].
  apply Z.ltb_ge in Hlt. unfold shape0 in Hlt.
  unfold take_rows. destruct P as [c rows]; simpl in *. f_equal. f_equal.
  symmetry. apply firstn_all2. unfold nrows in Hlt; simpl in Hlt.
  unfold slice_stop, nrows; simpl.
  replace (T' <? 0)%Z with false by (symmetry; apply Z.ltb_ge; lia). lia.
Qed.

(** X8: a buffer of the column count of [alpha] and of at most as many rows,
    passed with [T] omitted, gives what the call without a buffer gives for
    [T] the row count of the buffer; the former content of the buffer plays
    no part. *)
Theorem state_probabilities_buffer_as_explicit_T (alpha beta g : ndarray F) st :
  well_shaped alpha -> well_shaped beta -> ncols beta = ncols alpha ->
  nrows beta = nrows alpha -> ncols g = ncols alpha ->
  (nrows g <= nrows alpha)%nat ->
  fst (state_probabilities alpha beta None (Some g) st)
  = fst (state_probabilities alpha beta (Some (shape0 g)) None st).
Proof.
  intros Ha Hb Hc Hr Hg Hle.
  rewrite !state_probabilities_outcome.
  rewrite (product_step_short_buffer alpha beta g Ha Hb Hc Hr Hg Hle).
  rewrite (product_step_fresh alpha beta (Some (shape0 g)) Ha Hb Hc Hr).
  cbn [determine_T].
  replace (take_rows (shape0 g)
             {| ncols := ncols alpha;
                data := zip_with (zip_with fmul) (data alpha) (data beta) |})
    with {| ncols := ncols alpha;
            data := firstn (nrows g)
                      (zip_with (zip_with fmul) (data alpha) (data beta)) |};
    [reflexivity|].
  unfold take_rows, shape0; simpl.
  rewrite slice_stop_nonneg, Nat2Z.id by lia. reflexivity.
Qed.

(** X9: a buffer with more rows than [alpha] is refused as soon as [alpha]
    has two rows or more: the product does not fit the buffer. *)
Theorem state_probabilities_rejects_longer_buffer (alpha beta : ndarray F) T g st :
  well_shaped alpha -> well_shaped beta -> ncols beta = ncols alpha ->
  nrows beta = nrows alpha -> ncols g = ncols alpha ->
  (2 <= nrows alpha)%nat -> (nrows alpha < nrows g)%nat ->
  fst (state_probabilities alpha beta T (Some g) st)
  = Raise (NumpyError ValueError_class operands_not_broadcastable).
Proof.
  intros Ha Hb Hc Hr Hg H2 Hlt.
  rewrite state_probabilities_outcome.
  unfold shape0. rewrite Hr, Z.eqb_refl. cbn [negb].
  unfold product_step, np_multiply_out.
  replace (shape0 g <? shape0 alpha)%Z with false
    by (symmetry; apply Z.ltb_ge; unfold shape0; lia).
  rewrite (ufunc2_out_same_shape fmul alpha beta g); auto.
  unfold fits, clashes.
  replace (nrows alpha =? nrows g)%nat with false
    by (symmetry; apply Nat.eqb_neq; lia).
  replace (nrows alpha =? 1)%nat with false
    by (symmetry; apply Nat.eqb_neq; lia).
  replace (nrows g =? 1)%nat with false
    by (symmetry; apply Nat.eqb_neq; lia).
  reflexivity.
Qed.

(** X10: without a buffer, the call with an explicit [T] returns the rows
    that the slice [[:T]] takes of what the call with [T] omitted returns,
    for every integer [T], and fails when that call fails. *)
Theorem state_probabilities_explicit_T_is_prefix (alpha beta : ndarray F) T st :
  reachable st ->
  well_shaped alpha -> well_shaped beta -> ncols beta = ncols alpha ->
  nrows beta = nrows alpha ->
  fst (state_probabilities alpha beta (Some T) None st)
  = match fst (state_probabilities alpha beta None None st) with
    | Return gamma => Return (take_rows T gamma)
    | Raise e => Raise e
    end.
Proof.
  intros Hreach Ha Hb Hc Hr.
  rewrite !state_probabilities_outcome.
  destruct (negb (shape0 alpha =? shape0 beta)%Z); [reflexivity|].
  rewrite !(product_step_fresh alpha beta _ Ha Hb Hc Hr).
  cbn [determine_T].
  set (P := {| ncols := ncols alpha;
               data := zip_with (zip_with fmul) (data alpha) (data beta) |}).
  assert (HP : well_shaped P).
  { unfold well_shaped, P; simpl.
    apply zip_with_rows_length; [exact Ha | rewrite <- Hc; exact Hb]. }
  assert (Hfull : take_rows (shape0 alpha) P = P).
  { unfold take_rows, P, shape0; simpl. f_equal.
    apply firstn_all2. unfold nrows; simpl.
    rewrite slice_stop_nonneg, Nat2Z.id by lia.
    rewrite zip_with_length. unfold nrows in Hr. rewrite Hr, Nat.min_id.
    unfold nrows. lia. }
  rewrite Hfull.
  destruct (_ones (snd (get_summation_helper alpha st))) as [ones|] eqn:Hones;
    [|reflexivity].
  apply (get_summation_helper_ones alpha st ones Hreach) in Hones. subst ones.
  pose proof (normalised_outcome (take_rows T P) (take_rows_well_shaped T P HP)) as H1.
  pose proof (normalised_outcome P HP) as H2.
  change (ncols (take_rows T P)) with (ncols alpha) in H1.
  change (ncols P) with (ncols alpha) in H2.
  rewrite H1, H2.
  unfold take_rows; simpl. f_equal. f_equal.
  unfold nrows; simpl. rewrite length_map.
  symmetry. apply firstn_map.
Qed.

(** X11: the cache of ones has no bearing on the outcome: on an [alpha]
    with at least one column, [state_probabilities] returns or raises the
    same in any two states the module can be in. *)
Theorem state_probabilities_outcome_ignores_cache (alpha beta : ndarray F) T gamma_out st1 st2 :
  reachable st1 -> reachable st2 -> (0 < ncols alpha)%nat ->
  fst (state_probabilities alpha beta T gamma_out st1)
  = fst (state_probabilities alpha beta T gamma_out st2).
Proof.
  intros H1 H2 Hpos.
  rewrite !state_probabilities_outcome.
  rewrite (get_summation_helper_built alpha st1 H1 Hpos).
  rewrite (get_summation_helper_built alpha st2 H2 Hpos).
  reflexivity.
Qed.

(** ** The cache over sequences of calls *)

(** X12: in every state that calls of the module lead to, [_ones] is either
    unset with [_ones_size = 0], or the column of [_ones_size] ones; and a
    cache that has been built is never unset again by a later call. *)
Theorem ones_cache_invariant (st : globals F) :
  reachable st ->
  match _ones st with
  | None => _ones_size st = 0%Z
  | Some o => (0 <= _ones_size st)%Z
              /\ o = np_ones_column (Z.to_nat (_ones_size st))
  end
  /\ forall c, _ones st <> None -> _ones (snd (run c st)) <> None.
Proof.
  intros Hr. split.
  - pose proof (reachable_consistent st Hr) as Hc. unfold cache_consistent in Hc.
    destruct (_ones st) as [o|]; [|exact Hc].
    destruct Hc as [n [-> Hn]]. rewrite Hn, Nat2Z.id. split; [lia | reflexivity].
  - intros c Hset. rewrite run_globals.
    destruct c; try exact Hset.
    rewrite get_summation_helper_globals.
    destruct (_ones_size st =? shape1 alpha)%Z; [exact Hset | discriminate].
Qed.

(** ** State counts beyond the rows *)

(** X13: [state_counts] never refuses a [T] beyond the rows of [gamma]: the
    slice stops at the last row, and the call gives what [T] the row count
    of [gamma] gives. *)
Theorem state_counts_saturates (gamma : ndarray F) T out st :
  (shape0 gamma <= T)%Z ->
  state_counts gamma T out st = state_counts gamma (shape0 gamma) out st.
Proof.
  intros H. rewrite !state_counts_cases. f_equal. f_equal.
  unfold take_rows. f_equal.
  unfold shape0 in *.
  rewrite !slice_stop_nonneg by lia.
  rewrite !firstn_all2; [reflexivity | |]; unfold nrows in *; lia.
Qed.

End Further.

(** ** Concrete calls *)

Lemma sample_path_omitted_T_is_row_count_witness :
  (shape0 ones_2x2 <= shape0 ones_3x2)%Z
  /\ sample_path ones_3x2 ones_2x2 ones_2x2 None initial_globals
     = sample_path ones_3x2 ones_2x2 ones_2x2 (Some (shape0 ones_2x2)) initial_globals.
Proof.
  assert (H : (shape0 ones_2x2 <= shape0 ones_3x2)%Z) by (unfold shape0; simpl; lia).
  split; [exact H |].
  exact (sample_path_omitted_T_is_row_count ones_3x2 ones_2x2 ones_2x2 initial_globals H).
Defined.

Lemma backward_returns_iff_witness :
  fst (backward ones_2x2 ones_3x2 (Some 2%Z) (Some ones_2x2) initial_globals)
  = Return (impl_backward ones_2x2 ones_3x2 2 (shape0 ones_2x2) ones_2x2).
Proof.
  assert (H : (2 <= shape0 ones_3x2)%Z /\ (2 <= shape0 ones_2x2)%Z)
    by (unfold shape0; simpl; lia).
  exact (proj2 (backward_returns_iff ones_2x2 ones_3x2 (Some 2%Z) (Some ones_2x2)
                  initial_globals) H).
Defined.

Lemma state_probabilities_rejects_mismatch_witness :
  nrows ones_1x2 <> nrows ones_2x2
  /\ fst (state_probabilities ones_1x2 ones_2x2 (Some 1%Z) (Some ones_2x2)
                              initial_globals)
     = Raise (ValueError "Inconsistent sizes of alpha and beta.").
Proof.
  assert (H : nrows ones_1x2 <> nrows ones_2x2) by (unfold nrows; simpl; lia).
  split; [exact H |].
  exact (state_probabilities_rejects_mismatch ones_1x2 ones_2x2 (Some 1%Z)
           (Some ones_2x2) initial_globals H).
Defined.

Lemma state_probabilities_buffer_as_explicit_T_witness :
  fst (state_probabilities alpha_3x2 ones_3x2 None (Some ones_2x2) initial_globals)
  = fst (state_probabilities alpha_3x2 ones_3x2 (Some (shape0 ones_2x2)) None
                             initial_globals).
Proof.
  assert (H1 : well_shaped alpha_3x2) by (repeat constructor).
  assert (H2 : well_shaped ones_3x2) by (repeat constructor).
  assert (H3 : (nrows ones_2x2 <= nrows alpha_3x2)%nat) by (unfold nrows; simpl; lia).
  exact (state_probabilities_buffer_as_explicit_T alpha_3x2 ones_3x2 ones_2x2
           initial_globals H1 H2 eq_refl eq_refl eq_refl H3).
Defined.

Lemma state_probabilities_rejects_longer_buffer_witness :
  fst (state_probabilities ones_2x2 ones_2x2 (Some 2%Z) (Some ones_3x2)
                           initial_globals)
  = Raise (NumpyError ValueError_class operands_not_broadcastable).
Proof.
  assert (H1 : well_shaped ones_2x2) by (repeat constructor).
  assert (H2 : (2 <= nrows ones_2x2)%nat) by (unfold nrows; simpl; lia).
  assert (H3 : (nrows ones_2x2 < nrows ones_3x2)%nat) by (unfold nrows; simpl; lia).
  exact (state_probabilities_rejects_longer_buffer ones_2x2 ones_2x2 (Some 2%Z)
           ones_3x2 initial_globals H1 H1 eq_refl eq_refl eq_refl H2 H3).
Defined.

Lemma state_probabilities_explicit_T_is_prefix_witness :
  reachable initial_globals
  /\ fst (state_probabilities alpha_3x2 ones_3x2 (Some 2%Z) None initial_globals)
     = match fst (state_probabilities alpha_3x2 ones_3x2 None None initial_globals) with
       | Return gamma => Return (take_rows 2 gamma)
       | Raise e => Raise e
       end.
Proof.
  assert (H1 : well_shaped alpha_3x2) by (repeat constructor).
  assert (H2 : well_shaped ones_3x2) by (repeat constructor).
  split; [exact reachable_initial |].
  exact (state_probabilities_explicit_T_is_prefix alpha_3x2 ones_3x2 2
           initial_globals reachable_initial H1 H2 eq_refl eq_refl).
Defined.

Lemma state_probabilities_outcome_ignores_cache_witness :
  reachable initial_globals
  /\ reachable (snd (run (call_state_probabilities ones_3x2 ones_3x2 None None)
                         initial_globals))
  /\ fst (state_probabilities ones_2x2 ones_2x2 None None initial_globals)
     = fst (state_probabilities ones_2x2 ones_2x2 None None
              (snd (run (call_state_probabilities ones_3x2 ones_3x2 None None)
                        initial_globals))).
Proof.
  assert (H2 : reachable (snd (run (call_state_probabilities ones_3x2 ones_3x2 None None)
                                   initial_globals)))
    by (apply reachable_run, reachable_initial).
  assert (Hpos : (0 < ncols ones_2x2)%nat) by (simpl; lia).
  split; [exact reachable_initial | split; [exact H2 |]].
  exact (state_probabilities_outcome_ignores_cache ones_2x2 ones_2x2 None None
           initial_globals _ reachable_initial H2 Hpos).
Defined.

Lemma ones_cache_invariant_witness :
  reachable (snd (run (call_state_probabilities ones_3x2 ones_3x2 None None)
                      initial_globals))
  /\ _ones (snd (run (call_state_probabilities ones_3x2 ones_3x2 None None)
                     initial_globals))
     = Some (np_ones_column 2).
Proof.
  assert (H : reachable (snd (run (call_state_probabilities ones_3x2 ones_3x2 None None)
                                  initial_globals)))
    by (apply reachable_run, reachable_initial).
  split; [exact H |].
  exact (f_equal (@Some (ndarray Q)) (proj2 (proj1 (ones_cache_invariant _ H)))).
Defined.

Lemma state_counts_saturates_witness :
  (shape0 ones_2x2 <= 7)%Z
  /\ state_counts ones_2x2 7 None initial_globals
     = state_counts ones_2x2 (shape0 ones_2x2) None initial_globals.
Proof.
  assert (H : (shape0 ones_2x2 <= 7)%Z) by (unfold shape0; simpl; lia).
  split; [exact H |].
  exact (state_counts_saturates ones_2x2 7 None initial_globals H).
Defined.

(** ** The classes of the errors raised *)

Section ErrorClasses.

Context {F : Type} {ar : Arith F}.

(** X16: whatever [forward] raises is a [TypeError]; whatever [backward],
    [state_probabilities], [state_counts], [transition_counts] and
    [sample_path] raise is a [ValueError]; and the wrapper [viterbi] raises
    nothing. For [state_probabilities] this holds on an [alpha] with at
    least one column, in the states the module can be in. *)
Theorem raised_error_classes (c : api_call F) st e :
  match c with
  | call_state_probabilities alpha _ _ _ => reachable st /\ (0 < ncols alpha)%nat
  | _ => True
  end ->
  fst (run c st) = Raise e ->
  class_of e = match c with
               | call_forward _ _ _ _ _ => TypeError_class
               | _ => ValueError_class
               end
  /\ match c with
     | call_viterbi _ _ _ => False
     | _ => True
     end.
Proof.
  intros Hc H. destruct c; unfold run in H; apply bind_ret_raises in H.
  - (* forward *)
    split; [|exact I].
    unfold forward, bind, ret, raise, lift, py_gt in H.
    destruct T as [t|]; simpl in H.
    + destruct (t >? shape0 pobs)%Z; simpl in H; [injection H as <-; reflexivity|].
      destruct alpha as [a|]; simpl in H; [|discriminate].
      destruct (t >? shape0 a)%Z; simpl in H;
        [injection H as <-; reflexivity | discriminate].
    + destruct alpha as [a|]; simpl in H;
        [injection H as <-; reflexivity | discriminate].
  - (* backward *)
    split; [|exact I].
    unfold backward, bind, ret, raise in H.
    destruct T as [t|]; simpl in H.
    + destruct (t >? shape0 pobs)%Z; simpl in H; [injection H as <-; reflexivity|].
      destruct beta_out as [b|]; simpl in H; [|discriminate].
      destruct (t >? shape0 b)%Z; simpl in H;
        [injection H as <-; reflexivity | discriminate].
    + destruct beta_out as [b|]; simpl in H; [|discriminate].
      destruct (shape0 pobs >? shape0 b)%Z; simpl in H;
        [injection H as <-; reflexivity | discriminate].
  - (* state_probabilities *)
    split; [|exact I].
    destruct Hc as [Hreach Hpos].
    rewrite state_probabilities_outcome in H.
    destruct (negb (shape0 alpha =? shape0 beta)%Z);
      [injection H as <-; reflexivity|].
    destruct (product_step alpha beta T gamma_out) as [m|e'] eqn:Hm.
    + rewrite (get_summation_helper_built alpha st Hreach Hpos) in H.
      destruct (np_dot m (np_ones_column (ncols alpha))) as [d|e'] eqn:Hd.
      * destruct (ufunc2_out_raises _ _ _ _ _ H) as [k ->]. reflexivity.
      * injection H as <-. rewrite (np_dot_raises _ _ _ Hd). reflexivity.
    + injection H as <-.
      destruct (product_step_raises _ _ _ _ _ Hm) as [k ->]. reflexivity.
  - (* state_counts *)
    split; [|exact I].
    rewrite state_counts_cases in H. cbn [fst] in H.
    unfold np_sum_axis0 in H.
    destruct out as [o|]; [|discriminate].
    destruct (length o =? ncols (take_rows T gamma))%nat;
      [discriminate | injection H as <-; reflexivity].
  - (* transition_counts *)
    split; [|exact I].
    unfold transition_counts, bind, ret, raise in H.
    destruct T as [t|]; simpl in H; [|discriminate].
    destruct (t >? shape0 pobs)%Z; simpl in H;
      [injection H as <-; reflexivity | discriminate].
  - (* viterbi: the row count of pobs is never negative *)
    exfalso.
    unfold viterbi, bind, ret, lift, np_zeros_int in H.
    destruct (shape0 pobs <? 0)%Z eqn:Hneg; simpl in H; [|discriminate].
    apply Z.ltb_lt in Hneg. unfold shape0 in Hneg. lia.
  - (* sample_path *)
    split; [|exact I].
    unfold sample_path, bind, ret, raise, lift, np_zeros_int in H.
    destruct T as [t|]; simpl in H.
    + destruct ((t >? shape0 pobs)%Z || (t >? shape0 alpha)%Z); simpl in H;
        [injection H as <-; reflexivity|].
      destruct (t <? 0)%Z; simpl in H;
        [injection H as <-; reflexivity | discriminate].
    + destruct (shape0 pobs <? 0)%Z; simpl in H;
        [injection H as <-; reflexivity | discriminate].
Qed.

End ErrorClasses.

Lemma raised_error_classes_witness :
  fst (run (call_state_probabilities ones_1x2 ones_2x2 None None) initial_globals)
  = Raise (ValueError "Inconsistent sizes of alpha and beta.")
  /\ class_of (ValueError "Inconsistent sizes of alpha and beta.") = ValueError_class.
Proof.
  assert (Hpos : (0 < ncols ones_1x2)%nat) by (simpl; lia).
  split; [reflexivity |].
  exact (proj1 (raised_error_classes
                  (call_state_probabilities ones_1x2 ones_2x2 None None)
                  initial_globals (ValueError "Inconsistent sizes of alpha and beta.")
                  (conj reachable_initial Hpos) eq_refl)).
Defined.
